(** * kingsway: the job listing filter and the AI assist workflow

    A shallow embedding of [src/src/JobsPage.jsx] (the listing screen: the
    [locations] and [filteredJobs] memos), of [ApplyWithAI.jsx] (the assist
    screen: [generateLetter], [rewriteAsCv], [modifyLetter], [validateCv]
    and the redirect effect) and of the route table of [src/src/App.jsx].

    Conventions of the embedding.
    - A JavaScript string is a [string]: the sequence of its code units,
      each below 256 (the Latin-1 range).  On that range [toLowerCase] and
      [trim] are the functions written out below.
    - A field that may be absent ([undefined] or [null]) is an [option].
    - [String.prototype.localeCompare] is the host's collation; it is a
      parameter of [locations], assumed to be a consistent comparator
      where its order matters. *)

From Stdlib Require Import ZArith Ascii String List Bool Lia.
From stdpp Require Import base tactics option list strings sorting.

Local Open Scope Z_scope.

(** * JavaScript strings *)

Module JsString.

Definition code (c : ascii) : N := N_of_ascii c.

(** Upper-case letters of the Latin-1 range: A-Z, and U+00C0-U+00DE
    except the multiplication sign U+00D7. *)
Definition isUpper (c : ascii) : bool :=
  let n := code c in
  ((65 <=? n) && (n <=? 90) ||
   (192 <=? n) && (n <=? 222) && negb (n =? 215))%N.

Definition lowerChar (c : ascii) : ascii :=
  if isUpper c then ascii_of_N (code c + 32) else c.

(** [s.toLowerCase()] *)
Fixpoint toLowerCase (s : string) : string :=
  match s with
  | EmptyString => EmptyString
  | String c s' => String (lowerChar c) (toLowerCase s')
  end.

(** ECMAScript WhiteSpace and LineTerminator code points below 256:
    TAB, LF, VT, FF, CR, SP and NBSP. *)
Definition isWhiteSpace (c : ascii) : bool :=
  let n := code c in
  ((9 <=? n) && (n <=? 13) || (n =? 32) || (n =? 160))%N.

Definition isEmpty (s : string) : bool :=
  match s with EmptyString => true | String _ _ => false end.

Fixpoint trimStart (s : string) : string :=
  match s with
  | EmptyString => EmptyString
  | String c s' => if isWhiteSpace c then trimStart s' else s
  end.

Fixpoint trimEnd (s : string) : string :=
  match s with
  | EmptyString => EmptyString
  | String c s' =>
      let t := trimEnd s' in
      if isWhiteSpace c && isEmpty t then EmptyString else String c t
  end.

(** [s.trim()] *)
Definition trim (s : string) : string := trimEnd (trimStart s).

(** [s.startsWith(p)], the test [includes] performs at each position. *)
Fixpoint startsWith (s p : string) {struct p} : bool :=
  match p, s with
  | EmptyString, _ => true
  | String _ _, EmptyString => false
  | String a p', String b s' => bool_decide (a = b) && startsWith s' p'
  end.

(** [s.includes(needle)] *)
Fixpoint includes (s needle : string) : bool :=
  startsWith s needle ||
  match s with
  | EmptyString => false
  | String _ s' => includes s' needle
  end.

(** Truthiness of a string: every string but the empty one. *)
Definition truthy (s : string) : bool := negb (isEmpty s).

(** [o || ""] for a field that holds a string or is absent. *)
Definition orEmpty (o : option string) : string :=
  match o with
  | Some s => if truthy s then s else ""
  | None => ""
  end.

(** [needle] occurs in [s]: the meaning of "is a substring of". *)
Definition IsSubstring (needle s : string) : Prop :=
  exists pre post : string, s = pre +:+ needle +:+ post.

(** The code-unit order, one consistent comparator (the collation of a
    host without locale data). *)
Fixpoint codeUnitCompare (a b : string) : Z :=
  match a, b with
  | EmptyString, EmptyString => 0
  | EmptyString, String _ _ => -1
  | String _ _, EmptyString => 1
  | String x a', String y b' =>
      if (code x <? code y)%N then -1
      else if (code y <? code x)%N then 1
      else codeUnitCompare a' b'
  end.

End JsString.

Import JsString.

(** * The listing screen, [JobsPage.jsx] *)

(** ** Data model *)

Record DiscoveryInput := mkDiscoveryInput {
  location : option string
}.

Record Job := mkJob {
  job_title : option string;
  company_name : option string;
  description : option string;
  apply_link : option string;
  discovery_input : option DiscoveryInput;
  likely_to_sponsor : option Z;
  salary_formatted : option string
}.

#[global] Instance DiscoveryInput_eq_dec : EqDecision DiscoveryInput.
Proof. solve_decision. Defined.

#[global] Instance Job_eq_dec : EqDecision Job.
Proof. solve_decision. Defined.

(** [j?.discovery_input?.location] *)
Definition job_location (j : Job) : option string :=
  match discovery_input j with
  | Some d => location d
  | None => None
  end.

Module JobsPage.

(** The sentinel of the location selector, and the initial [loc]. *)
Definition All : string := "All".

(** ** [locations] *)

(** [.filter(Boolean)] on an array of strings and absent values. *)
Fixpoint filterBoolean (l : list (option string)) : list string :=
  match l with
  | [] => []
  | Some s :: l' => if truthy s then s :: filterBoolean l' else filterBoolean l'
  | None :: l' => filterBoolean l'
  end.

(** [Array.from(new Set(l))]: a Set keeps the first occurrence of each
    value, in insertion order. *)
Definition setAdd (acc : list string) (x : string) : list string :=
  if decide (x ∈ acc) then acc else acc ++ [x].

Definition arrayFromSet (l : list string) : list string :=
  fold_left setAdd l [].

Section Sort.
Variable cmp : string -> string -> Z.

(** [Array.prototype.sort(cmp)] is stable; with a consistent comparator
    its result is the stable sorted permutation, which insertion from
    the right computes. *)
Fixpoint insert (x : string) (l : list string) : list string :=
  match l with
  | [] => [x]
  | y :: l' => if cmp x y <=? 0 then x :: y :: l' else y :: insert x l'
  end.

Definition sort (l : list string) : list string := foldr insert [] l.

End Sort.

(** [locations]; the comparator handed to [sort] is
    [(a, b) => a.localeCompare(b)]. *)
Definition locations (localeCompare : string -> string -> Z)
    (jobs : list Job) : list string :=
  let s := arrayFromSet (filterBoolean (map job_location jobs)) in
  All :: sort localeCompare s.

(** ** [filteredJobs] *)

Definition matchQuery (query : string) (j : Job) : bool :=
  let title := toLowerCase (orEmpty (job_title j)) in
  let company := toLowerCase (orEmpty (company_name j)) in
  let location := toLowerCase (orEmpty (job_location j)) in
  negb (truthy query) || includes title query || includes company query
    || includes location query.

Definition matchLoc (loc : string) (j : Job) : bool :=
  let location := toLowerCase (orEmpty (job_location j)) in
  bool_decide (loc = All) || bool_decide (location = toLowerCase loc).

Definition filteredJobs (jobs : list Job) (q loc : string) : list Job :=
  let query := toLowerCase (trim q) in
  List.filter (fun j => matchQuery query j && matchLoc loc j) jobs.

End JobsPage.

(** * The assist screen, [ApplyWithAI.jsx] *)

(** ** JavaScript values

    The values a JSON response can hold, and [undefined] for the fields it
    lacks.  A number is held as its canonical rendering, the string
    Number::toString gives for it ("40", "0.5", "1e+21"): the digits are the
    host's business, distinct numbers render differently, and both zeros
    render "0".  An object is held as parsed, each key once. *)

Module Js.

#[local] Unset Elimination Schemes.
Inductive JsValue :=
| JUndefined
| JNull
| JBool (b : bool)
| JNum (repr : string)
| JStr (s : string)
| JArr (items : list JsValue)
| JObj (fields : list (string * JsValue)).
#[local] Set Elimination Schemes.

(** ToBoolean; the falsy numbers are the zeros and NaN. *)
Definition truthy (v : JsValue) : bool :=
  match v with
  | JUndefined | JNull => false
  | JBool b => b
  | JNum r => negb (bool_decide (r = "0")) && negb (bool_decide (r = "NaN"))
  | JStr s => JsString.truthy s
  | JArr _ | JObj _ => true
  end.

Definition isNullish (v : JsValue) : bool :=
  match v with
  | JUndefined | JNull => true
  | _ => false
  end.

(** The object has [k] as a key of its own. *)
Fixpoint hasKey (k : string) (fields : list (string * JsValue)) : bool :=
  match fields with
  | [] => false
  | (k', _) :: rest => bool_decide (k = k') || hasKey k rest
  end.

(** ToString, as a template literal and [+] on a string apply it; [None]
    is a TypeError.  A parsed object converts through the [toString] it
    finds: its own key of that name, never callable, leaves no way to a
    primitive and the conversion throws; without one,
    [Object.prototype.toString] answers.  An array converts through
    [join(",")], where [null] and [undefined] elements give the empty
    string. *)
Fixpoint toString (v : JsValue) : option string :=
  match v with
  | JUndefined => Some "undefined"
  | JNull => Some "null"
  | JBool true => Some "true"
  | JBool false => Some "false"
  | JNum r => Some r
  | JStr s => Some s
  | JArr items =>
      (fix join (l : list JsValue) : option string :=
         match l with
         | [] => Some ""
         | x :: rest =>
             match (if isNullish x then Some "" else toString x) with
             | None => None
             | Some sx =>
                 match rest with
                 | [] => Some sx
                 | _ :: _ =>
                     match join rest with
                     | None => None
                     | Some sr => Some (sx +:+ "," +:+ sr)
                     end
                 end
             end
         end) items
  | JObj fields =>
      if hasKey "toString" fields then None else Some "[object Object]"
  end.

Fixpoint lookupField (k : string) (fields : list (string * JsValue))
    : JsValue :=
  match fields with
  | [] => JUndefined
  | (k', v) :: rest => if decide (k = k') then v else lookupField k rest
  end.

(** [v.k] for a [v] that is neither [undefined] nor [null] and one of
    the keys the program reads ([enough], [score], [advice], [letter],
    [cv]), which no primitive, array or prototype carries: the field of
    an object, [undefined] otherwise. *)
Definition getField (v : JsValue) (k : string) : JsValue :=
  match v with
  | JObj fields => lookupField k fields
  | _ => JUndefined
  end.

(** [v === false] *)
Definition strictEqFalse (v : JsValue) : bool :=
  match v with
  | JBool false => true
  | _ => false
  end.

(** A field that holds a string or is absent, as a value.  [None] stands
    for [undefined] and for [null] alike, and is written [JUndefined]: a
    request body is modelled up to which of the two an absent job field
    is. *)
Definition ofOption (o : option string) : JsValue :=
  match o with
  | Some s => JStr s
  | None => JUndefined
  end.

End Js.

Import Js.

(** ** Component state, network and the effect monad *)

Module Assist.

(** The [useState] cells of [ApplyWithAI]. *)
Record State := mkState {
  cv : string;
  letter : JsValue;
  loading : bool;
  error : string;
  selectedStyle : string;
  rewrittenCv : JsValue;
  editAction : string;
  cvReview : JsValue
}.

(** The initial values handed to [useState]. *)
Definition initialState : State :=
  {| cv := ""; letter := JStr ""; loading := false; error := "";
     selectedStyle := "summary"; rewrittenCv := JStr "";
     editAction := "longer"; cvReview := JNull |}.

(** A [fetch] call: every one of them is a POST with a JSON body; [body]
    is the object handed to [JSON.stringify]. *)
Record Request := mkRequest {
  url : string;
  body : JsValue
}.

(** What a [fetch] comes to.  [NetworkFailure]: the promise rejects.
    [Responded ok payload]: a response with [res.ok = ok]; [payload] is
    what parsing its text as JSON gives, [None] when it does not parse
    (or the body cannot be read). *)
Inductive FetchOutcome :=
| NetworkFailure
| Responded (ok : bool) (payload : option JsValue).

(** The remote services, opaque: an answer to every request. *)
Definition Network := Request -> FetchOutcome.

(** What an action leaves behind, in order: each request with the state
    the screen shows while it is pending, and each [console.error]. *)
Inductive Event :=
| EvFetch (req : Request) (pending : State)
| EvConsoleError.

Record World := mkWorld {
  st : State;
  trace : list Event
}.

(** How a computation ends: with a value, or with a thrown exception. *)
Inductive Completion (A : Type) :=
| Returned (a : A)
| Threw.
Arguments Returned {A} a.
Arguments Threw {A}.

Definition M (A : Type) : Type := World -> Completion A * World.

Definition ret {A} (a : A) : M A := fun w => (Returned a, w).

Definition bind {A B} (m : M A) (k : A -> M B) : M B :=
  fun w =>
    match m w with
    | (Returned a, w') => k a w'
    | (Threw, w') => (Threw, w')
    end.

Definition throw {A} : M A := fun w => (Threw, w).

(** [try { body } catch (e) { handler }] *)
Definition tryCatch {A} (body handler : M A) : M A :=
  fun w =>
    match body w with
    | (Returned a, w') => (Returned a, w')
    | (Threw, w') => handler w'
    end.

(** [try { body } finally { cleanup }]: the cleanup runs on every exit of
    the body, an early [return] included, and the body's completion
    stands unless the cleanup throws. *)
Definition tryFinally {A} (body : M A) (cleanup : M unit) : M A :=
  fun w =>
    match body w with
    | (c, w') =>
        match cleanup w' with
        | (Returned _, w'') => (c, w'')
        | (Threw, w'') => (Threw, w'')
        end
    end.

Declare Scope js_scope.
Delimit Scope js_scope with js.
Notation "x <- c1 ;; c2" := (bind c1 (fun x => c2))
  (at level 100, c1 at next level, right associativity) : js_scope.
Notation "c1 ;; c2" := (bind c1 (fun _ => c2))
  (at level 100, right associativity) : js_scope.
Local Open Scope js_scope.

Definition modify (f : State -> State) : M unit :=
  fun w => (Returned tt, {| st := f (st w); trace := trace w |}).

Definition emit (e : Event) : M unit :=
  fun w => (Returned tt, {| st := st w; trace := trace w ++ [e] |}).

Definition setLetter (v : JsValue) : M unit :=
  modify (fun s => {| cv := cv s; letter := v; loading := loading s;
    error := error s; selectedStyle := selectedStyle s;
    rewrittenCv := rewrittenCv s; editAction := editAction s;
    cvReview := cvReview s |}).

Definition setLoading (b : bool) : M unit :=
  modify (fun s => {| cv := cv s; letter := letter s; loading := b;
    error := error s; selectedStyle := selectedStyle s;
    rewrittenCv := rewrittenCv s; editAction := editAction s;
    cvReview := cvReview s |}).

Definition setError (e : string) : M unit :=
  modify (fun s => {| cv := cv s; letter := letter s; loading := loading s;
    error := e; selectedStyle := selectedStyle s;
    rewrittenCv := rewrittenCv s; editAction := editAction s;
    cvReview := cvReview s |}).

Definition setRewrittenCv (v : JsValue) : M unit :=
  modify (fun s => {| cv := cv s; letter := letter s; loading := loading s;
    error := error s; selectedStyle := selectedStyle s;
    rewrittenCv := v; editAction := editAction s;
    cvReview := cvReview s |}).

Definition setCvReview (v : JsValue) : M unit :=
  modify (fun s => {| cv := cv s; letter := letter s; loading := loading s;
    error := error s; selectedStyle := selectedStyle s;
    rewrittenCv := rewrittenCv s; editAction := editAction s;
    cvReview := v |}).

(** [console.error(e)] *)
Definition consoleError : M unit := emit EvConsoleError.

(** [data.k]: a TypeError when [data] is [null] or [undefined]. *)
Definition getProp (data : JsValue) (k : string) : M JsValue :=
  if isNullish data then throw else ret (getField data k).

(** ** The four actions *)

Record Response := mkResponse {
  ok : bool;
  payload : option JsValue
}.

Section Actions.

(** The services, and [job = state?.job] of the navigation state. *)
Variable net : Network.
Variable job : option Job.

(** [await fetch(url, {method: "POST", ..., body: JSON.stringify(body)})] *)
Definition fetch (req : Request) : M Response :=
  fun w =>
    let w' := {| st := st w; trace := trace w ++ [EvFetch req (st w)] |} in
    match net req with
    | NetworkFailure => (Threw, w')
    | Responded o p => (Returned {| ok := o; payload := p |}, w')
    end.

(** [await res.json()], and [JSON.parse(await res.text())] *)
Definition json (res : Response) : M JsValue :=
  match payload res with
  | Some v => ret v
  | None => throw
  end.

(** [if (!res.ok) throw new Error(...)] *)
Definition throwUnlessOk (res : Response) : M unit :=
  if negb (ok res) then throw else ret tt.

(** [job?.f] *)
Definition jobField (f : Job -> option string) : option string :=
  match job with
  | Some j => f j
  | None => None
  end.

(** The [job] object of a request body; the actions differ in how they
    fill [description]. *)
Definition jobPayload (descr : JsValue) : JsValue :=
  JObj [("job_title", ofOption (jobField job_title));
        ("company_name", ofOption (jobField company_name));
        ("description", descr);
        ("discovery_input",
          JObj [("location", JStr (orEmpty (jobField job_location)))])].

Definition validateRequest (s : State) : Request :=
  {| url := "/api/validate-cv";
     body := JObj [("cv_text", JStr (cv s));
                   ("job", jobPayload (JStr (orEmpty (jobField description))))] |}.

Definition coverLetterRequest (s : State) : Request :=
  {| url := "/api/cover-letter";
     body := JObj [("cv_text", JStr (cv s));
                   ("job", jobPayload (ofOption (jobField description)));
                   ("style", JStr (selectedStyle s))] |}.

Definition rewriteRequest (s : State) : Request :=
  {| url := "/api/rewrite-to-cv";
     body := JObj [("cv_text", JStr (cv s));
                   ("job", jobPayload (ofOption (jobField description)))] |}.

Definition editRequest (s : State) : Request :=
  {| url := "/api/edit-letter";
     body := JObj [("action", JStr (editAction s));
                   ("letter", letter s);
                   ("cv_text", JStr (cv s));
                   ("job", jobPayload (JStr (orEmpty (jobField description))))] |}.

(** [review.advice || "Please add more detail."], converted by [+]. *)
Definition adviceText (review : JsValue) : option string :=
  let advice := getField review "advice" in
  if truthy advice then toString advice
  else Some "Please add more detail.".

(** The message of the insufficient-resume branch; [None] when a
    conversion throws. *)
Definition incompleteMessage (review : JsValue) : option string :=
  match toString (getField review "score") with
  | None => None
  | Some score =>
      match adviceText review with
      | None => None
      | Some advice =>
          Some ("Your CV seems incomplete for this JD (score "
                  +:+ score +:+ "). " +:+ advice)
      end
  end.

(** An expression whose conversions may throw, evaluated. *)
Definition evaluate {A} (o : option A) : M A :=
  match o with
  | Some a => ret a
  | None => throw
  end.

(** The actions are closures of one render: they read [cv], [letter],
    [selectedStyle] and [editAction] of the state [s] they were created
    in, whatever they have set since. *)

Definition validateCv (s : State) : M JsValue :=
  tryCatch
    (res <- fetch (validateRequest s) ;;
     throwUnlessOk res ;;
     data <- json res ;;
     setCvReview data ;;
     ret data)
    (consoleError ;;
     setError "CV validation failed." ;;
     ret JNull).

Definition generateLetter (s : State) : M unit :=
  tryFinally
    (tryCatch
       (setLoading true ;;
        setError "" ;;
        setLetter (JStr "") ;;
        review <- validateCv s ;;
        if negb (truthy review) then ret tt
        else
          enough <- getProp review "enough" ;;
          if strictEqFalse enough then
            msg <- evaluate (incompleteMessage review) ;;
            setError msg
          else
            res <- fetch (coverLetterRequest s) ;;
            throwUnlessOk res ;;
            data <- json res ;;
            v <- getProp data "letter" ;;
            setLetter v)
       (consoleError ;;
        setError "Failed to generate letter."))
    (setLoading false).

Definition rewriteAsCv (s : State) : M unit :=
  tryFinally
    (tryCatch
       (setLoading true ;;
        setError "" ;;
        setRewrittenCv (JStr "") ;;
        res <- fetch (rewriteRequest s) ;;
        throwUnlessOk res ;;
        data <- json res ;;
        v <- getProp data "cv" ;;
        setRewrittenCv v)
       (consoleError ;;
        setError "Failed to rewrite CV."))
    (setLoading false).

Definition modifyLetter (s : State) : M unit :=
  tryFinally
    (tryCatch
       (setLoading true ;;
        setError "" ;;
        res <- fetch (editRequest s) ;;
        throwUnlessOk res ;;
        data <- json res ;;
        v <- getProp data "letter" ;;
        setLetter v)
       (consoleError ;;
        setError "Failed to modify letter."))
    (setLoading false).

End Actions.

(** An action run to completion from the state of the render that made it. *)
Definition run {A} (action : State -> M A) (s : State) : Completion A * World :=
  action s {| st := s; trace := [] |}.

(** The state and the trace an action ends with. *)
Definition final {A} (action : State -> M A) (s : State) : State :=
  st (snd (run action s)).

Definition events {A} (action : State -> M A) (s : State) : list Event :=
  trace (snd (run action s)).

(** The requests of a trace, in order. *)
Fixpoint requests (t : list Event) : list Request :=
  match t with
  | [] => []
  | EvFetch req _ :: t' => req :: requests t'
  | EvConsoleError :: t' => requests t'
  end.

(** The states shown while a request of the trace is pending. *)
Fixpoint pendingStates (t : list Event) : list State :=
  match t with
  | [] => []
  | EvFetch _ s :: t' => s :: pendingStates t'
  | EvConsoleError :: t' => pendingStates t'
  end.

End Assist.

(** * Routing, [App.jsx], and the redirect effect of the assist screen *)

Module Router.

(** The navigation state [navigate(path, {state: {job}})] attaches. *)
Record NavState := mkNavState {
  nav_job : option Job
}.

(** What [useLocation()] returns. *)
Record Location := mkLocation {
  pathname : string;
  state : option NavState
}.

Inductive Screen :=
| JobsPageScreen
| ApplyWithAIScreen
| NoScreen.

(** A pathname without its trailing slashes. *)
Fixpoint dropTrailingSlashes (path : string) : string :=
  match path with
  | EmptyString => EmptyString
  | String c rest =>
      let t := dropTrailingSlashes rest in
      if bool_decide (c = "/"%char) && isEmpty t then EmptyString
      else String c t
  end.

(** The [Routes] of [App], matched as react-router matches a path
    pattern by default: letters whatever their case, trailing slashes
    ignored, the pathname decoded.  The pattern ["/"] matches the
    pathnames made of slashes only. *)
Definition route (path : string) : Screen :=
  let p := toLowerCase (dropTrailingSlashes path) in
  if decide (p = "") then JobsPageScreen
  else if decide (p = "/apply-with-ai") then ApplyWithAIScreen
  else NoScreen.

Definition screenOf (l : Location) : Screen := route (pathname l).

(** [const job = state?.job] *)
Definition selectedJob (l : Location) : option Job :=
  match state l with
  | Some ns => nav_job ns
  | None => None
  end.

(** [navigate(path)], without a state *)
Definition navigate (path : string) : Location :=
  {| pathname := path; state := None |}.

(** [navigate("/apply-with-ai", { state: { job } })] of a job card *)
Definition applyWithAI (j : Job) : Location :=
  {| pathname := "/apply-with-ai";
     state := Some {| nav_job := Some j |} |}.

(** The effect of [ApplyWithAI]: [if (!job) navigate("/")]. *)
Definition redirectEffect (l : Location) : Location :=
  match selectedJob l with
  | None => navigate "/"
  | Some _ => l
  end.

(** The location one is at after entering [l]: where the assist screen
    is matched its effect has run.  Only that screen has an effect that
    navigates; whether a screen renders at all is [Mounting.shown]. *)
Definition enter (l : Location) : Location :=
  match screenOf l with
  | ApplyWithAIScreen => redirectEffect l
  | _ => l
  end.

End Router.

(** * The specification's words, as definitions

    What the specification says of the listing screen, written down
    independently of the code, to be compared with it. *)

Module Listing.

Import JobsPage.

(** [out] is exactly the sub-list of the elements of [l] that satisfy [P],
    each as often and in the order [l] has it. *)
Inductive Selects {A} (P : A -> Prop) : list A -> list A -> Prop :=
| Selects_nil : Selects P [] []
| Selects_keep x l out : P x -> Selects P l out -> Selects P (x :: l) (x :: out)
| Selects_drop x l out : ~ P x -> Selects P l out -> Selects P (x :: l) out.

(** The three lower-cased texts a query is looked up in. *)
Definition titleOf (j : Job) : string := toLowerCase (orEmpty (job_title j)).
Definition companyOf (j : Job) : string := toLowerCase (orEmpty (company_name j)).
Definition locationOf (j : Job) : string := toLowerCase (orEmpty (job_location j)).

Definition OccursIn (needle : string) (j : Job) : Prop :=
  IsSubstring needle (titleOf j) \/ IsSubstring needle (companyOf j)
    \/ IsSubstring needle (locationOf j).

(** The location criterion: a location other than the sentinel is matched
    case-insensitively (an absent location counts as the empty string). *)
Definition LocationMatches (loc : string) (j : Job) : Prop :=
  loc <> All -> locationOf j = toLowerCase loc.

(** The query criterion as the specification words it: a non-empty query,
    lower-cased, occurs in the title, the company or the location. *)
Definition QueryMatchesAsWorded (q : string) (j : Job) : Prop :=
  q <> "" -> OccursIn (toLowerCase q) j.

(** The query criterion of the code: the query is trimmed first. *)
Definition QueryMatches (q : string) (j : Job) : Prop :=
  trim q <> "" -> OccursIn (toLowerCase (trim q)) j.

Definition KeepAsWorded (q loc : string) (j : Job) : Prop :=
  LocationMatches loc j /\ QueryMatchesAsWorded q j.

Definition Keep (q loc : string) (j : Job) : Prop :=
  LocationMatches loc j /\ QueryMatches q j.

(** Filtering by one criterion only. *)
Definition byQuery (jobs : list Job) (q : string) : list Job :=
  List.filter (matchQuery (toLowerCase (trim q))) jobs.

Definition byLocation (jobs : list Job) (loc : string) : list Job :=
  List.filter (matchLoc loc) jobs.

(** Sorted for a comparator: no element compares after a later one. *)
Definition SortedBy (cmp : string -> string -> Z) (l : list string) : Prop :=
  StronglySorted (fun a b => cmp a b <= 0) l.

(** A location value present in the job array: a non-empty string that is
    the location of some job. *)
Definition PresentLocation (jobs : list Job) (x : string) : Prop :=
  x <> "" /\ exists j, j ∈ jobs /\ job_location j = Some x.

(** Sample postings. *)
Definition posting (title company : string) (loc : option string) : Job :=
  {| job_title := Some title; company_name := Some company;
     description := None; apply_link := None;
     discovery_input := Some {| location := loc |};
     likely_to_sponsor := None; salary_formatted := None |}.

Definition nurse : Job := posting "Nurse" "NHS" (Some "London").
Definition developer : Job := posting "Developer" "Acme" (Some "Berlin").
Definition steward : Job := posting "Steward" "Cruise Line" (Some "All").

End Listing.

(** What the specification says of the assist screen. *)

Module Workflow.

Import Assist.

(** A non-success HTTP response or a network failure. *)
Definition Failed (o : FetchOutcome) : Prop :=
  o = NetworkFailure \/ exists p, o = Responded false p.

(** An answer with nothing to read from: a failure, or a success whose
    text is not JSON. *)
Definition Unusable (o : FetchOutcome) : Prop :=
  Failed o \/ o = Responded true None.

Section Outcomes.

Variable net : Network.
Variable job : option Job.
Variable s : State.

(** The validation service answers [review], with [enough: false]. *)
Definition Insufficient (review : JsValue) : Prop :=
  net (validateRequest job s) = Responded true (Some review)
  /\ getField review "enough" = JBool false.

(** The validation service answers [review], and it lets the flow go on:
    a value that is not falsy, with [enough] not [false]. *)
Definition Sufficient (review : JsValue) : Prop :=
  net (validateRequest job s) = Responded true (Some review)
  /\ truthy review = true
  /\ getField review "enough" <> JBool false.

(** The generation request fails: no answer to read, or an answer that
    is [null]. *)
Definition GenerationFails : Prop :=
  Unusable (net (coverLetterRequest job s))
  \/ exists d, net (coverLetterRequest job s) = Responded true (Some d)
               /\ isNullish d = true.

(** The three ways the generate-letter flow ends in an error. *)
Inductive EndsInError : Prop :=
| validation_failed :
    Unusable (net (validateRequest job s)) -> EndsInError
| resume_insufficient review :
    Insufficient review -> EndsInError
| generation_failed review :
    Sufficient review -> GenerationFails -> EndsInError.

End Outcomes.

(** An action ended without an exception, with the error message [msg],
    having issued the requests [reqs] and no other. *)
Definition CaughtWith {A} (r : Completion A * World) (msg : string)
    (reqs : list Request) : Prop :=
  (exists a, fst r = Returned a)
  /\ error (st (snd r)) = msg
  /\ requests (trace (snd r)) = reqs.

(** The loading flag is up while every request of the action is pending,
    and down once the action is over. *)
Definition LoadingBrackets {A} (action : State -> M A) (s : State) : Prop :=
  Forall (fun p => loading p = true) (pendingStates (events action s))
  /\ loading (final action s) = false.

(** The action leaves the loading flag as it finds it. *)
Definition LoadingUntouched {A} (action : State -> M A) (s : State) : Prop :=
  Forall (fun p => loading p = loading s) (pendingStates (events action s))
  /\ loading (final action s) = loading s.

(** Sample services. *)
Definition offline : Network := fun _ => NetworkFailure.

(** Validation answers [review]; generation answers [answer]. *)
Definition service (review : JsValue) (answer : FetchOutcome) : Network :=
  fun req =>
    if decide (url req = "/api/validate-cv")
    then Responded true (Some review)
    else answer.

Definition weakReview : JsValue :=
  JObj [("score", JNum "40"); ("enough", JBool false);
        ("advice", JStr "Add your recent projects.")].

Definition goodReview : JsValue :=
  JObj [("score", JNum "90"); ("enough", JBool true); ("advice", JStr "")].

Definition letterX : JsValue := JObj [("letter", JStr "X")].

(** The resume is found wanting; it is found good and the letter "X"
    comes back; it is found good and the generation service is down. *)
Definition weakService : Network :=
  service weakReview (Responded true (Some letterX)).
Definition goodService : Network :=
  service goodReview (Responded true (Some letterX)).
Definition brokenService : Network :=
  service goodReview NetworkFailure.

Definition someJob : option Job :=
  Some {| job_title := Some "Nurse"; company_name := Some "NHS";
          description := Some "Ward nurse, nights."; apply_link := None;
          discovery_input := Some {| location := Some "London" |};
          likely_to_sponsor := None; salary_formatted := None |}.

(** The state the generate-letter flow has set by the time it awaits
    [validateCv]: flag up, error and letter cleared. *)
Definition underway (s : State) : State :=
  {| cv := cv s; letter := JStr ""; loading := true; error := "";
     selectedStyle := selectedStyle s; rewrittenCv := rewrittenCv s;
     editAction := editAction s; cvReview := cvReview s |}.

(** A session with a resume pasted and a letter on display. *)
Definition session : State :=
  {| cv := "Ten years of nursing."; letter := JStr "Dear Sir or Madam";
     loading := false; error := ""; selectedStyle := "summary";
     rewrittenCv := JStr ""; editAction := "longer"; cvReview := JNull |}.

End Workflow.

(** * Further parts of the two screens *)

(** ** The job card component, [JobCard] *)

Module JobCard.

(** [s.slice(0, n)]: the first [n] code units, all of [s] when it is
    shorter. *)
Fixpoint sliceTo (n : nat) (s : string) : string :=
  match n, s with
  | O, _ => EmptyString
  | S _, EmptyString => EmptyString
  | S n', String c s' => String c (sliceTo n' s')
  end.

(** [const fullText = job.description || ""] *)
Definition fullText (j : Job) : string := orEmpty (description j).

(** [fullText.length > 100] *)
Definition isLong (j : Job) : bool :=
  (100 <? String.length (fullText j))%nat.

Definition shortText (j : Job) : string :=
  if isLong j then sliceTo 100 (fullText j) +:+ "..." else fullText j.

(** [{expanded ? fullText : shortText}] *)
Definition shownText (expanded : bool) (j : Job) : string :=
  if expanded then fullText j else shortText j.

(** The toggle button is rendered when [fullText.length > 100]. *)
Definition toggleShown (j : Job) : bool := isLong j.

(** [onClick={() => setExpanded(!expanded)}] *)
Definition toggle (expanded : bool) : bool := negb expanded.

End JobCard.

(** ** The burger menu of the listing screen *)

Module Menu.

Record MenuState := mkMenuState {
  isMenuOpen : bool;
  isMobile : bool
}.

(** [useState(false)], twice *)
Definition initialMenu : MenuState :=
  {| isMenuOpen := false; isMobile := false |}.

Definition setIsMenuOpen (b : bool) (m : MenuState) : MenuState :=
  {| isMenuOpen := b; isMobile := isMobile m |}.

Definition setIsMobile (b : bool) (m : MenuState) : MenuState :=
  {| isMenuOpen := isMenuOpen m; isMobile := b |}.

(** [checkScreenSize], the resize listener, at [window.innerWidth = w] *)
Definition checkScreenSize (w : Z) (m : MenuState) : MenuState :=
  setIsMobile (w <=? 768) m.

(** The mount effect: the initial check, and the menu closed on a
    desktop width. *)
Definition mountEffect (w : Z) (m : MenuState) : MenuState :=
  let m' := checkScreenSize w m in
  if 768 <? w then setIsMenuOpen false m' else m'.

Definition toggleMenu (m : MenuState) : MenuState :=
  setIsMenuOpen (negb (isMenuOpen m)) m.

Definition closeMenu (m : MenuState) : MenuState :=
  if isMobile m then setIsMenuOpen false m else m.

(** Where a click lands: inside [.menu], inside [.burger-menu]. *)
Record ClickTarget := mkClickTarget {
  inMenu : bool;
  inBurger : bool
}.

Definition handleClickOutside (t : ClickTarget) (m : MenuState) : MenuState :=
  if isMenuOpen m && isMobile m && negb (inMenu t) && negb (inBurger t)
  then setIsMenuOpen false m
  else m.

(** [document.body.style.overflow] is ["hidden"] *)
Definition scrollLocked (m : MenuState) : bool := isMenuOpen m && isMobile m.

(** The window resized through the widths [ws], in order. *)
Definition resizes (ws : list Z) (m : MenuState) : MenuState :=
  fold_left (fun m w => checkScreenSize w m) ws m.

End Menu.

(** ** What the assist screen renders *)

Module Controls.

Import Assist.

(** [!x] for a field that holds a string or is absent *)
Definition jsNot (o : option string) : bool :=
  match o with
  | Some s => negb (JsString.truthy s)
  | None => true
  end.

(** [disabled={!cv || !job?.description || loading}], of the generate
    and of the rewrite button *)
Definition generateDisabled (job : option Job) (s : State) : bool :=
  negb (JsString.truthy (cv s)) || jsNot (jobField job description) || loading s.

Definition rewriteDisabled (job : option Job) (s : State) : bool :=
  negb (JsString.truthy (cv s)) || jsNot (jobField job description) || loading s.

(** [{letter && (...)}]: the letter panel, with the edit controls *)
Definition letterPanelShown (s : State) : bool := Js.truthy (letter s).

(** [disabled={!letter || loading}], of the apply-change button *)
Definition modifyDisabled (s : State) : bool :=
  negb (Js.truthy (letter s)) || loading s.

(** [{rewrittenCv && (...)}] *)
Definition cvPanelShown (s : State) : bool := Js.truthy (rewrittenCv s).

(** [{error && <p className="error">{error}</p>}] *)
Definition errorShown (s : State) : bool := JsString.truthy (error s).

(** [job.description.substring(0, 700)] of the job card: a TypeError
    ([None]) when the job has no description. *)
Definition descriptionPreview (j : Job) : option string :=
  match description j with
  | Some d => Some (JobCard.sliceTo 700 d)
  | None => None
  end.

End Controls.

(** ** What is on the screen after entering a location *)

Module Mounting.

Import Router.

Inductive View :=
| Mounted (screen : Screen)
| Crashed.

(** Rendering [ApplyWithAI] throws when a job is selected and its
    description preview throws; no error boundary catches it. *)
Definition renderThrows (l : Location) : bool :=
  match screenOf l, selectedJob l with
  | ApplyWithAIScreen, Some j =>
      bool_decide (Controls.descriptionPreview j = None)
  | _, _ => false
  end.

Definition shown (l : Location) : View :=
  if renderThrows l then Crashed else Mounted (screenOf (enter l)).

End Mounting.

(** ** Further notions for the statements *)

Module Notions.

Import Assist.

(** A string of whitespace only. *)
Fixpoint allWhiteSpace (s : string) : bool :=
  match s with
  | EmptyString => true
  | String c s' => isWhiteSpace c && allWhiteSpace s'
  end.

(** The user's inputs: what the actions read and never write. *)
Definition SameInputs (s s' : State) : Prop :=
  cv s' = cv s /\ selectedStyle s' = selectedStyle s
  /\ editAction s' = editAction s.

(** An answer that can be read: ok, JSON, and not [null]. *)
Definition Readable (o : FetchOutcome) (data : JsValue) : Prop :=
  o = Responded true (Some data) /\ isNullish data = false.

(** An answer that cannot: a failure, text that is not JSON, or [null]. *)
Definition Unreadable (o : FetchOutcome) : Prop :=
  o = NetworkFailure
  \/ (exists p, o = Responded false p)
  \/ o = Responded true None
  \/ (exists d, o = Responded true (Some d) /\ isNullish d = true).

(** A posting with a description. *)
Definition described (d : string) : Job :=
  {| job_title := Some "Nurse"; company_name := Some "NHS";
     description := Some d; apply_link := None;
     discovery_input := Some {| location := Some "London" |};
     likely_to_sponsor := None; salary_formatted := None |}.

(** Sample services: the rewrite comes back; validation answers [null]. *)
Definition rewriteService : Network :=
  Workflow.service Workflow.goodReview
    (Responded true (Some (JObj [("cv", JStr "Profile: ward nurse.")]))).

Definition silentService : Network :=
  Workflow.service JNull (Responded true (Some Workflow.letterX)).

Definition ready : option Job := Some (described "Ward nurse, nights.").




End Notions.

(** * Theorems *)

(** ** Strings *)

Section StringFacts.

Import JsString.

Lemma startsWith_spec (s p : string) :
  startsWith s p = true <-> exists post, s = p +:+ post.
Proof.
  revert s. induction p as [|a p IH]; intros s; simpl.
  - split; [intros _; by exists s | done].
  - destruct s as [|b s].
    + split; [done | intros [post H]; discriminate H].
    + rewrite andb_true_iff, bool_decide_eq_true, IH. split.
      * intros [-> [post ->]]. by exists post.
      * intros [post H]. injection H as -> ->. split; [done | by exists post].
Qed.

Lemma includes_spec (s needle : string) :
  includes s needle = true <-> IsSubstring needle s.
Proof.
  split.
  - induction s as [|c s IH]; simpl; rewrite orb_true_iff.
    + intros [H | H]; [| done].
      apply startsWith_spec in H as [post H]. by exists "", post.
    + intros [H | H].
      * apply startsWith_spec in H as [post H]. by exists "", post.
      * destruct (IH H) as (pre & post & ->). by exists (String c pre), post.
  - intros (pre & post & ->). induction pre as [|c pre IH].
    + destruct (needle +:+ post) eqn:E; simpl in *; rewrite <- ?E;
        apply orb_true_iff; left; apply startsWith_spec; exists post;
        by rewrite ?E.
    + change (String c pre +:+ needle +:+ post)
        with (String c (pre +:+ needle +:+ post)).
      simpl. rewrite IH. apply orb_true_r.
Qed.

Lemma includes_false (s needle : string) :
  includes s needle = false -> ~ IsSubstring needle s.
Proof. intros H Hs. apply includes_spec in Hs. congruence. Qed.

Lemma toLowerCase_empty (s : string) : toLowerCase s = "" <-> s = "".
Proof. destruct s; simpl; split; congruence. Qed.

Lemma truthy_false (s : string) : truthy s = false <-> s = "".
Proof. destruct s; unfold truthy; simpl; split; congruence. Qed.

Lemma orEmpty_default (o : option string) : orEmpty o = default "" o.
Proof. destruct o as [[|c s]|]; reflexivity. Qed.

End StringFacts.

(** ** Selection of a sub-list *)

Section SelectsFacts.

Import Listing.

Context {A : Type} (P : A -> Prop).

Lemma Selects_elem_of (l out : list A) :
  Selects P l out -> forall x, x ∈ out <-> x ∈ l /\ P x.
Proof.
  induction 1 as [|x l out Hx _ IH|x l out Hx _ IH]; intros y.
  - split; [intros H | intros [H _]]; by apply elem_of_nil in H.
  - rewrite !elem_of_cons, IH.
    split; [intros [-> | [? ?]] | intros [[-> | ?] ?]]; auto.
  - rewrite elem_of_cons, IH.
    split; [intros [? ?] | intros [[-> | ?] ?]]; auto. contradiction.
Qed.

Lemma Selects_sublist (l out : list A) : Selects P l out -> sublist out l.
Proof. induction 1; by constructor. Qed.

Lemma Selects_unique (l out1 out2 : list A) :
  Selects P l out1 -> Selects P l out2 -> out1 = out2.
Proof.
  intros H1. revert out2.
  induction H1 as [|x l out Hx _ IH|x l out Hx _ IH]; intros out2 H2;
    inversion H2; subst; try contradiction.
  - reflexivity.
  - f_equal. by apply IH.
  - by apply IH.
Qed.

Lemma Selects_filter (f : A -> bool) (l : list A) :
  (forall x, f x = true <-> P x) -> Selects P l (List.filter f l).
Proof.
  intros Hf. induction l as [|x l IH]; simpl; [constructor|].
  destruct (f x) eqn:E.
  - apply Selects_keep; [by apply Hf | done].
  - apply Selects_drop; [| done]. rewrite <- Hf. congruence.
Qed.

End SelectsFacts.

Lemma filter_true {A} (f : A -> bool) (l : list A) :
  (forall x, f x = true) -> List.filter f l = l.
Proof.
  intros Hf. induction l as [|x l IH]; simpl; [done|].
  by rewrite Hf, IH.
Qed.

Lemma filter_andb {A} (f g : A -> bool) (l : list A) :
  List.filter f (List.filter g l) = List.filter (fun x => g x && f x) l.
Proof.
  induction l as [|x l IH]; simpl; [done|].
  destruct (g x); simpl; [destruct (f x) |]; by rewrite IH.
Qed.

(** ** [filteredJobs] *)

Section FilteredJobs.

Import JobsPage Listing.

(** The test of the filter callback decides [Keep]. *)
Lemma keep_decided (q loc : string) (j : Job) :
  matchQuery (toLowerCase (trim q)) j && matchLoc loc j = true
  <-> Keep q loc j.
Proof.
  unfold Keep, LocationMatches, QueryMatches, OccursIn, matchQuery, matchLoc.
  cbv zeta. fold (titleOf j) (companyOf j) (locationOf j).
  rewrite andb_true_iff, !orb_true_iff, negb_true_iff, truthy_false,
    toLowerCase_empty, !includes_spec, !bool_decide_eq_true.
  destruct (decide (loc = All)), (decide (trim q = "")); tauto.
Qed.

(** C1, as amended: [filteredJobs] returns exactly the jobs, in input order
    and each as often as the input has it, for which (a) when a location
    other than "All" is selected, the job's location equals it
    case-insensitively, and (b) when the trimmed query is non-empty, the
    trimmed, lower-cased query is a substring of the lower-cased title,
    company name or location. *)
Theorem filteredJobs_selects (jobs : list Job) (q loc : string) :
  Selects (Keep q loc) jobs (filteredJobs jobs q loc)
  /\ (forall out, Selects (Keep q loc) jobs out -> out = filteredJobs jobs q loc)
  /\ (forall j, j ∈ filteredJobs jobs q loc <-> j ∈ jobs /\ Keep q loc j)
  /\ sublist (filteredJobs jobs q loc) jobs.
Proof.
  assert (Selects (Keep q loc) jobs (filteredJobs jobs q loc)) as H.
  { apply Selects_filter. intros j. apply keep_decided. }
  split; [done|]. split; [|split].
  - intros out Hout. by apply (Selects_unique (Keep q loc) jobs).
  - by apply Selects_elem_of.
  - by apply (Selects_sublist (Keep q loc)).
Qed.

(** C1 as worded fails: the query "nurse " (a trailing space) is non-empty
    and is no substring of "nurse", "nhs" or "london", yet the posting is
    listed, because the code trims the query first. *)
Lemma filteredJobs_not_as_worded :
  filteredJobs [nurse] "nurse " All = [nurse]
  /\ ~ KeepAsWorded "nurse " All nurse
  /\ ~ Selects (KeepAsWorded "nurse " All) [nurse]
         (filteredJobs [nurse] "nurse " All).
Proof.
  assert (~ KeepAsWorded "nurse " All nurse) as Hk.
  { intros [_ H]. destruct H as [H | [H | H]]; [done | ..];
      revert H; by apply includes_false. }
  split; [reflexivity|]. split; [done|].
  change (filteredJobs [nurse] "nurse " All) with [nurse].
  intros H. inversion H as [|x l out Hx Hs|x l out Hx Hs]; subst.
  - done.
  - inversion Hs.
Qed.

(** C5: with an empty query and the location "All" the filter is the
    identity: it returns the job array unchanged. *)
Theorem filteredJobs_identity (jobs : list Job) :
  filteredJobs jobs "" All = jobs.
Proof. unfold filteredJobs. by apply filter_true. Qed.

Lemma byQuery_filteredJobs (jobs : list Job) (q : string) :
  byQuery jobs q = filteredJobs jobs q All.
Proof.
  unfold byQuery, filteredJobs. apply filter_ext. intros j.
  unfold matchLoc. by rewrite bool_decide_eq_true_2, andb_true_r.
Qed.

Lemma byLocation_filteredJobs (jobs : list Job) (loc : string) :
  byLocation jobs loc = filteredJobs jobs "" loc.
Proof. unfold byLocation, filteredJobs. by apply filter_ext. Qed.

(** C6: filtering by the query and then by the location gives the same
    list as filtering by the location and then by the query, and both give
    what [filteredJobs] returns for the pair; the one-criterion filters are
    [filteredJobs] with the other criterion neutral. *)
Theorem filter_criteria_commute (jobs : list Job) (q loc : string) :
  byLocation (byQuery jobs q) loc = byQuery (byLocation jobs loc) q
  /\ byLocation (byQuery jobs q) loc = filteredJobs jobs q loc
  /\ filteredJobs (filteredJobs jobs q All) "" loc
     = filteredJobs (filteredJobs jobs "" loc) q All.
Proof.
  assert (byLocation (byQuery jobs q) loc = filteredJobs jobs q loc) as H1.
  { unfold byLocation, byQuery, filteredJobs. by rewrite filter_andb. }
  assert (byQuery (byLocation jobs loc) q = filteredJobs jobs q loc) as H2.
  { unfold byLocation, byQuery, filteredJobs. rewrite filter_andb.
    apply filter_ext. intros j. apply andb_comm. }
  split; [congruence|]. split; [done|].
  rewrite <- !byQuery_filteredJobs, <- !byLocation_filteredJobs. congruence.
Qed.

End FilteredJobs.

(** ** [locations] *)

Section SetFacts.

Import JobsPage.

Lemma filterBoolean_elem_of (l : list (option string)) (x : string) :
  x ∈ filterBoolean l <-> x <> "" /\ Some x ∈ l.
Proof.
  induction l as [|[s|] l IH]; simpl.
  - split; [intros H | intros [_ H]]; by apply elem_of_nil in H.
  - destruct (JsString.truthy s) eqn:E.
    + rewrite !elem_of_cons, IH. split.
      * intros [-> | [? ?]]; [| by auto].
        split; [| by left]. intros ->. discriminate E.
      * intros [? [[= ->] | ?]]; auto.
    + apply truthy_false in E as ->. rewrite elem_of_cons, IH. split.
      * intros [? ?]; auto.
      * intros [? [[= ->] | ?]]; [done | auto].
  - rewrite elem_of_cons, IH. split.
    + intros [? ?]; auto.
    + intros [? [[=] | ?]]; auto.
Qed.

Lemma fold_setAdd_elem_of (l acc : list string) (x : string) :
  x ∈ fold_left setAdd l acc <-> x ∈ acc \/ x ∈ l.
Proof.
  revert acc. induction l as [|y l IH]; intros acc; simpl.
  - rewrite elem_of_nil. tauto.
  - rewrite IH, elem_of_cons. unfold setAdd. destruct (decide (y ∈ acc)).
    + split; [tauto |]. intros [? | [-> | ?]]; auto.
    + rewrite elem_of_app, list_elem_of_singleton. tauto.
Qed.

Lemma fold_setAdd_NoDup (l acc : list string) :
  NoDup acc -> NoDup (fold_left setAdd l acc).
Proof.
  revert acc. induction l as [|y l IH]; intros acc Hacc; simpl; [done|].
  apply IH. unfold setAdd. destruct (decide (y ∈ acc)); [done|].
  apply NoDup_app. split; [done|]. split; [| apply NoDup_singleton].
  intros z Hz ->%list_elem_of_singleton. contradiction.
Qed.

Lemma arrayFromSet_elem_of (l : list string) (x : string) :
  x ∈ arrayFromSet l <-> x ∈ l.
Proof.
  unfold arrayFromSet. rewrite fold_setAdd_elem_of, elem_of_nil. tauto.
Qed.

Lemma arrayFromSet_NoDup (l : list string) : NoDup (arrayFromSet l).
Proof. apply fold_setAdd_NoDup, NoDup_nil_2. Qed.

End SetFacts.

Section SortFacts.

Import JobsPage Listing.

Variable cmp : string -> string -> Z.

Lemma insert_Permutation (x : string) (l : list string) :
  insert cmp x l ≡ₚ x :: l.
Proof.
  induction l as [|y l IH]; simpl; [done|].
  destruct (cmp x y <=? 0); [done|].
  rewrite IH. apply Permutation_swap.
Qed.

Lemma sort_Permutation (l : list string) : sort cmp l ≡ₚ l.
Proof.
  induction l as [|x l IH]; simpl; [done|].
  fold (sort cmp l). by rewrite insert_Permutation, IH.
Qed.

(** The comparator is consistent: any two strings compare one way or the
    other, and the order it gives is transitive. *)
Hypothesis compare_total : forall a b, cmp a b <= 0 \/ cmp b a <= 0.
Hypothesis compare_trans :
  forall a b c, cmp a b <= 0 -> cmp b c <= 0 -> cmp a c <= 0.

Lemma insert_Sorted (x : string) (l : list string) :
  Sorted (fun a b => cmp a b <= 0) l ->
  Sorted (fun a b => cmp a b <= 0) (insert cmp x l).
Proof.
  induction 1 as [|y l Hl IH Hhd]; simpl.
  - by repeat constructor.
  - destruct (Z.leb_spec (cmp x y) 0) as [Hxy | Hxy].
    + by repeat constructor.
    + constructor; [done|].
      assert (cmp y x <= 0) as Hyx by (destruct (compare_total x y); lia).
      destruct Hhd as [|z l Hyz]; simpl; [by constructor|].
      destruct (cmp x z <=? 0); by constructor.
Qed.

Lemma sort_Sorted (l : list string) : SortedBy cmp (sort cmp l).
Proof.
  apply Sorted_StronglySorted.
  { intros a b c. apply compare_trans. }
  induction l as [|x l IH]; simpl; [constructor|].
  by apply insert_Sorted.
Qed.

End SortFacts.

Section CodeUnitOrder.

Import JsString.

Lemma codeUnitCompare_total (a b : string) :
  codeUnitCompare a b <= 0 \/ codeUnitCompare b a <= 0.
Proof.
  revert b. induction a as [|x a IH]; intros [|y b]; simpl; try lia.
  destruct (N.ltb_spec (code x) (code y)), (N.ltb_spec (code y) (code x));
    try lia. apply IH.
Qed.

Lemma codeUnitCompare_trans (a b c : string) :
  codeUnitCompare a b <= 0 -> codeUnitCompare b c <= 0 ->
  codeUnitCompare a c <= 0.
Proof.
  revert b c. induction a as [|x a IH]; intros [|y b] [|z c]; simpl; try lia.
  destruct (N.ltb_spec (code x) (code y)), (N.ltb_spec (code y) (code x)),
    (N.ltb_spec (code y) (code z)), (N.ltb_spec (code z) (code y)),
    (N.ltb_spec (code x) (code z)), (N.ltb_spec (code z) (code x));
    try lia. apply IH.
Qed.

End CodeUnitOrder.

Section Locations.

Import JobsPage Listing.

Variable localeCompare : string -> string -> Z.

Hypothesis compare_total :
  forall a b, localeCompare a b <= 0 \/ localeCompare b a <= 0.
Hypothesis compare_trans :
  forall a b c,
    localeCompare a b <= 0 -> localeCompare b c <= 0 -> localeCompare a c <= 0.

Lemma locations_tail_elem_of (jobs : list Job) (x : string) :
  x ∈ sort localeCompare (arrayFromSet (filterBoolean (map job_location jobs)))
  <-> PresentLocation jobs x.
Proof.
  rewrite sort_Permutation, arrayFromSet_elem_of, filterBoolean_elem_of.
  unfold PresentLocation. rewrite list_elem_of_In, in_map_iff.
  setoid_rewrite list_elem_of_In. split.
  - intros [Hx (j & Hj & Hin)]. split; [done|]. by exists j.
  - intros [Hx (j & Hin & Hj)]. split; [done|]. by exists j.
Qed.

(** C4, as amended: the location list is the sentinel "All" followed by
    the distinct present (non-empty) location values of the jobs, each
    once and sorted by [localeCompare]; the list as a whole is free of
    duplicates exactly when no job is located at "All" itself. *)
Theorem locations_spec (jobs : list Job) :
  exists tail,
    locations localeCompare jobs = All :: tail
    /\ NoDup tail
    /\ SortedBy localeCompare tail
    /\ (forall x, x ∈ tail <-> PresentLocation jobs x)
    /\ (NoDup (locations localeCompare jobs) <-> ~ PresentLocation jobs All).
Proof.
  exists (sort localeCompare
            (arrayFromSet (filterBoolean (map job_location jobs)))).
  assert (NoDup (sort localeCompare
            (arrayFromSet (filterBoolean (map job_location jobs))))) as Hnd.
  { rewrite sort_Permutation. apply arrayFromSet_NoDup. }
  split; [reflexivity|]. split; [done|]. split.
  { by apply sort_Sorted. }
  split; [apply locations_tail_elem_of|].
  unfold locations. cbv zeta. rewrite NoDup_cons, locations_tail_elem_of.
  tauto.
Qed.

End Locations.

(** C4 as worded fails: a posting located at "All" puts the sentinel in
    the list twice. *)
Lemma locations_duplicate_sentinel :
  JobsPage.locations codeUnitCompare [Listing.steward] = ["All"; "All"]
  /\ ~ NoDup (JobsPage.locations codeUnitCompare [Listing.steward]).
Proof.
  split; [reflexivity|].
  change (JobsPage.locations codeUnitCompare [Listing.steward])
    with ["All"; "All"].
  rewrite NoDup_cons, list_elem_of_singleton. tauto.
Qed.

(** [locations_spec] at the code-unit order and three postings. *)
Lemma locations_spec_witness :
  (forall a b, codeUnitCompare a b <= 0 \/ codeUnitCompare b a <= 0)
  /\ (forall a b c, codeUnitCompare a b <= 0 -> codeUnitCompare b c <= 0 ->
        codeUnitCompare a c <= 0)
  /\ exists tail,
       JobsPage.locations codeUnitCompare
         [Listing.nurse; Listing.developer; Listing.nurse] = JobsPage.All :: tail
       /\ NoDup tail
       /\ Listing.SortedBy codeUnitCompare tail
       /\ (forall x, x ∈ tail <->
             Listing.PresentLocation
               [Listing.nurse; Listing.developer; Listing.nurse] x)
       /\ (NoDup (JobsPage.locations codeUnitCompare
                    [Listing.nurse; Listing.developer; Listing.nurse])
           <-> ~ Listing.PresentLocation
                   [Listing.nurse; Listing.developer; Listing.nurse]
                   JobsPage.All).
Proof.
  split; [exact codeUnitCompare_total|].
  split; [exact codeUnitCompare_trans|].
  exact (locations_spec codeUnitCompare codeUnitCompare_total
           codeUnitCompare_trans
           [Listing.nurse; Listing.developer; Listing.nurse]).
Defined.

(** ** The assist workflow *)

Section AssistFacts.

Import Assist Workflow.

Variable net : Network.
Variable job : option Job.
Variable s : State.

Lemma truthy_not_nullish (v : JsValue) : truthy v = true -> isNullish v = false.
Proof. by destruct v. Qed.

Lemma strictEqFalse_spec (v : JsValue) :
  strictEqFalse v = true <-> v = JBool false.
Proof. destruct v as [| |[|]| | | |]; simpl; split; congruence. Qed.

Lemma append_assoc (a b c : string) : (a +:+ b) +:+ c = a +:+ b +:+ c.
Proof.
  induction a as [|x a IH]; [reflexivity|].
  change (String x ((a +:+ b) +:+ c) = String x (a +:+ b +:+ c)).
  by rewrite IH.
Qed.

Lemma append_nil_r (a : string) : a +:+ "" = a.
Proof.
  induction a as [|x a IH]; [reflexivity|].
  change (String x (a +:+ "") = String x a). by rewrite IH.
Qed.


(** What converts and what does not: a primitive always converts, an
    object exactly when it has no [toString] key of its own. *)
Lemma toString_object (fields : list (string * JsValue)) :
  toString (JObj fields) = None <-> hasKey "toString" fields = true.
Proof. simpl. destruct (hasKey "toString" fields); split; congruence. Qed.

Lemma toString_primitive (v : JsValue) :
  toString v = None -> (exists items, v = JArr items) \/ (exists fields, v = JObj fields).
Proof.
  destruct v as [| |[|]| | |items|fields]; try discriminate.
  - intros _. left. by exists items.
  - intros _. right. by exists fields.
Qed.




(** Unfolding of the actions down to the answers of the network. *)
Ltac unfold_actions :=
  unfold CaughtWith, LoadingBrackets, LoadingUntouched, final, events, run,
    generateLetter, rewriteAsCv, modifyLetter, validateCv,
    tryFinally, tryCatch, bind, fetch, throwUnlessOk, json, getProp,
    evaluate,
    consoleError, emit, setLoading, setError, setLetter, setRewrittenCv,
    setCvReview, modify, ret, throw;
  simpl.

(** Case analysis on every answer and every test an action depends on. *)
Ltac case_outcomes :=
  repeat match goal with
    | |- context [match net ?r with _ => _ end] =>
        destruct (net r) as [|[|] [?|]]; simpl
    | |- context [if ?b then _ else _] => destruct b; simpl
    | |- context [match incompleteMessage ?r with _ => _ end] =>
        destruct (incompleteMessage r); simpl
    end.

(** Whatever its status, a validation answer with [enough: false] is
    never followed by a generation request. *)
Lemma generateLetter_refused_requests (o : bool) (review : JsValue) :
  net (validateRequest job s) = Responded o (Some review) ->
  getField review "enough" = JBool false ->
  requests (events (generateLetter net job) s) = [validateRequest job s].
Proof.
  intros Hnet Henough. destruct review; try discriminate Henough.
  unfold_actions. rewrite Hnet. destruct o; simpl in *; [|done].
  rewrite Henough. simpl. by case_outcomes.
Qed.


(** C7: when validation lets the flow go on and the generation request
    succeeds with a body whose [letter] is "X", the letter state ends as
    "X" (and no error is shown). *)
Theorem generateLetter_success (review data : JsValue) (X : string) :
  Sufficient net job s review ->
  net (coverLetterRequest job s) = Responded true (Some data) ->
  getField data "letter" = JStr X ->
  letter (final (generateLetter net job) s) = JStr X
  /\ error (final (generateLetter net job) s) = ""
  /\ requests (events (generateLetter net job) s)
     = [validateRequest job s; coverLetterRequest job s].
Proof.
  intros (Hnet & Htruthy & Henough) Hgen Hletter.
  assert (isNullish data = false) as Hd by (by destruct data).
  assert (strictEqFalse (getField review "enough") = false) as Hs.
  { destruct (strictEqFalse _) eqn:E; [|done].
    by apply strictEqFalse_spec in E. }
  unfold_actions. rewrite Hnet. simpl.
  rewrite Htruthy, (truthy_not_nullish _ Htruthy). simpl.
  rewrite Hs, Hgen. simpl. rewrite Hd. simpl. by rewrite Hletter.
Qed.

(** C3: a failed request (a non-success HTTP response or a network
    failure) of any of the four actions is caught: the action ends
    normally, with the error set to the fixed message of the request that
    failed, and the request was issued once and not again. *)
Theorem failures_are_caught :
  (Failed (net (rewriteRequest job s)) ->
     CaughtWith (run (rewriteAsCv net job) s) "Failed to rewrite CV."
       [rewriteRequest job s])
  /\ (Failed (net (editRequest job s)) ->
        CaughtWith (run (modifyLetter net job) s) "Failed to modify letter."
          [editRequest job s])
  /\ (Failed (net (validateRequest job s)) ->
        CaughtWith (run (validateCv net job) s) "CV validation failed."
          [validateRequest job s]
        /\ CaughtWith (run (generateLetter net job) s) "CV validation failed."
             [validateRequest job s])
  /\ (forall review,
        Sufficient net job s review ->
        Failed (net (coverLetterRequest job s)) ->
        CaughtWith (run (generateLetter net job) s)
          "Failed to generate letter."
          [validateRequest job s; coverLetterRequest job s]).
Proof.
  split; [|split; [|split]].
  - intros [H | [p H]]; unfold_actions; rewrite H; simpl; eauto.
  - intros [H | [p H]]; unfold_actions; rewrite H; simpl; eauto.
  - intros [H | [p H]]; split; unfold_actions; rewrite H; simpl; eauto.
  - intros review (Hnet & Htruthy & Henough) Hfail.
    assert (strictEqFalse (getField review "enough") = false) as Hs.
    { destruct (strictEqFalse _) eqn:E; [|done].
      by apply strictEqFalse_spec in E. }
    destruct Hfail as [H | [p H]]; unfold_actions; rewrite Hnet; simpl;
      rewrite Htruthy, (truthy_not_nullish _ Htruthy); simpl;
      rewrite Hs, H; simpl; eauto.
Qed.

(** C9, as amended: generate letter, rewrite resume and edit letter each
    hold the loading flag up while their requests are pending and put it
    down when they are over, whatever the answers; [validateCv] does not
    touch the flag: its request is pending under the flag of the
    generate-letter action that runs it. *)
Theorem loading_flag :
  LoadingBrackets (generateLetter net job) s
  /\ LoadingBrackets (rewriteAsCv net job) s
  /\ LoadingBrackets (modifyLetter net job) s
  /\ LoadingUntouched (validateCv net job) s.
Proof.
  repeat split; unfold_actions; case_outcomes; by repeat constructor.
Qed.

(** C10: the generate-letter flow clears the letter before its first
    request, so while its requests are pending, and after it has ended
    because validation failed, the resume was found insufficient or the
    generation request failed, the letter state is the empty string. *)
Theorem generateLetter_clears_letter :
  EndsInError net job s ->
  letter (final (generateLetter net job) s) = JStr ""
  /\ Forall (fun p => letter p = JStr "")
       (pendingStates (events (generateLetter net job) s)).
Proof.
  intros H. split.
  - destruct H as [Hv | review [Hnet Henough] | review (Hnet & Ht & He) Hg].
    + destruct Hv as [[Hv | [p Hv]] | Hv]; unfold_actions; by rewrite Hv.
    + destruct review; try discriminate Henough.
      unfold_actions. rewrite Hnet. simpl in *. rewrite Henough. simpl.
      by case_outcomes.
    + assert (strictEqFalse (getField review "enough") = false) as Hs.
      { destruct (strictEqFalse _) eqn:E; [|done].
        by apply strictEqFalse_spec in E. }
      unfold_actions. rewrite Hnet. simpl.
      rewrite Ht, (truthy_not_nullish _ Ht). simpl. rewrite Hs.
      destruct Hg as [[[Hg | [p Hg]] | Hg] | (d & Hg & Hd)];
        rewrite Hg; simpl; [done..|]. by rewrite Hd.
  - clear H. unfold_actions. case_outcomes; by repeat constructor.
Qed.

End AssistFacts.

Section AssistExamples.

Import Assist Workflow.



(** [generateLetter_success] at the response body [{letter: "X"}]. *)
Lemma generateLetter_success_witness :
  Sufficient goodService someJob session goodReview
  /\ goodService (coverLetterRequest someJob session)
     = Responded true (Some (JObj [("letter", JStr "X")]))
  /\ letter (final (generateLetter goodService someJob) session) = JStr "X".
Proof.
  assert (Sufficient goodService someJob session goodReview) as H.
  { split; [reflexivity|]. split; [reflexivity | discriminate]. }
  split; [exact H|]. split; [reflexivity|].
  exact (proj1 (generateLetter_success goodService someJob session
                  goodReview letterX "X" H eq_refl eq_refl)).
Defined.

(** [failures_are_caught] with every service down, and with the
    generation service down after a good review. *)
Lemma failures_are_caught_witness :
  (Failed (offline (rewriteRequest someJob session))
   /\ CaughtWith (run (rewriteAsCv offline someJob) session)
        "Failed to rewrite CV." [rewriteRequest someJob session])
  /\ (Failed (offline (editRequest someJob session))
      /\ CaughtWith (run (modifyLetter offline someJob) session)
           "Failed to modify letter." [editRequest someJob session])
  /\ (Failed (offline (validateRequest someJob session))
      /\ CaughtWith (run (validateCv offline someJob) session)
           "CV validation failed." [validateRequest someJob session])
  /\ (Sufficient brokenService someJob session goodReview
      /\ Failed (brokenService (coverLetterRequest someJob session))
      /\ CaughtWith (run (generateLetter brokenService someJob) session)
           "Failed to generate letter."
           [validateRequest someJob session;
            coverLetterRequest someJob session]).
Proof.
  assert (Failed NetworkFailure) as Hdown by (left; reflexivity).
  assert (Sufficient brokenService someJob session goodReview) as Hgood.
  { split; [reflexivity|]. split; [reflexivity | discriminate]. }
  destruct (failures_are_caught offline someJob session)
    as (H1 & H2 & H3 & _).
  destruct (failures_are_caught brokenService someJob session)
    as (_ & _ & _ & H4).
  split; [exact (conj Hdown (H1 Hdown))|].
  split; [exact (conj Hdown (H2 Hdown))|].
  split; [exact (conj Hdown (proj1 (H3 Hdown)))|].
  exact (conj Hgood (conj Hdown (H4 goodReview Hgood Hdown))).
Defined.

(** [generateLetter_clears_letter] with a letter on display and the
    generation service down. *)
Lemma generateLetter_clears_letter_witness :
  letter session = JStr "Dear Sir or Madam"
  /\ EndsInError brokenService someJob session
  /\ letter (final (generateLetter brokenService someJob) session) = JStr "".
Proof.
  assert (EndsInError brokenService someJob session) as H.
  { apply (generation_failed _ _ _ goodReview).
    - split; [reflexivity|]. split; [reflexivity | discriminate].
    - left. left. left. reflexivity. }
  split; [reflexivity|]. split; [exact H|].
  exact (proj1 (generateLetter_clears_letter brokenService someJob session H)).
Defined.

(** C9 as worded fails for the validate action.  Run on its own,
    [validateCv] has its request pending with the loading flag down; run
    where the generate-letter flow runs it, with the flag up, it is over
    with the flag still up: the flag is not its own. *)
Lemma validateCv_outside_loading :
  pendingStates (events (validateCv goodService someJob) session) = [session]
  /\ loading session = false
  /\ ~ LoadingBrackets (validateCv goodService someJob) session
  /\ loading (st (snd (validateCv goodService someJob session
                         {| st := underway session; trace := [] |}))) = true.
Proof.
  split; [reflexivity|]. split; [reflexivity|]. split; [|reflexivity].
  intros [H _].
  change (pendingStates (events (validateCv goodService someJob) session))
    with [session] in H.
  inversion H as [|p l Hp Hl]; subst. discriminate Hp.
Qed.

(** The flow on the three sample services: what is requested, and what
    the screen shows afterwards. *)
Example generateLetter_weak :
  map url (requests (events (generateLetter weakService someJob) session))
    = ["/api/validate-cv"]
  /\ letter (final (generateLetter weakService someJob) session) = JStr "".
Proof. split; reflexivity. Qed.

Example generateLetter_good :
  map url (requests (events (generateLetter goodService someJob) session))
    = ["/api/validate-cv"; "/api/cover-letter"]
  /\ pendingStates (events (generateLetter goodService someJob) session)
     = [underway session;
        {| cv := cv session; letter := JStr ""; loading := true; error := "";
           selectedStyle := "summary"; rewrittenCv := JStr "";
           editAction := "longer"; cvReview := goodReview |}]
  /\ letter (final (generateLetter goodService someJob) session) = JStr "X"
  /\ loading (final (generateLetter goodService someJob) session) = false.
Proof. repeat split; reflexivity. Qed.

Example generateLetter_broken :
  error (final (generateLetter brokenService someJob) session)
    = "Failed to generate letter."
  /\ events (generateLetter offline someJob) session
     = [EvFetch (validateRequest someJob session) (underway session);
        EvConsoleError].
Proof. split; reflexivity. Qed.

End AssistExamples.

(** ** The redirect of the assist screen *)

Section RouterFacts.

Import Router.

(** C8: entering the assist screen without a job in the navigation
    state redirects to the listing screen at the home route; so whenever
    the assist screen stays mounted a selected job is present. *)
Theorem assist_requires_job (l : Location) :
  (screenOf l = ApplyWithAIScreen -> selectedJob l = None ->
     enter l = navigate "/" /\ screenOf (enter l) = JobsPageScreen)
  /\ (screenOf (enter l) = ApplyWithAIScreen ->
        exists j, selectedJob (enter l) = Some j).
Proof.
  split.
  - intros Hs Hj. unfold enter, redirectEffect. by rewrite Hs, Hj.
  - unfold enter, redirectEffect.
    destruct (screenOf l) eqn:Hs; rewrite ?Hs; try discriminate.
    destruct (selectedJob l) as [j|] eqn:Hj.
    + intros _. rewrite Hj. by exists j.
    + discriminate.
Qed.

(** [assist_requires_job] at the assist route hit directly, and at the
    navigation of a job card. *)
Lemma assist_requires_job_witness :
  (screenOf (navigate "/apply-with-ai") = ApplyWithAIScreen
   /\ selectedJob (navigate "/apply-with-ai") = None
   /\ screenOf (enter (navigate "/apply-with-ai")) = JobsPageScreen)
  /\ (screenOf (enter (applyWithAI (Notions.described "Ward nurse.")))
        = ApplyWithAIScreen
      /\ exists j,
           selectedJob (enter (applyWithAI (Notions.described "Ward nurse.")))
           = Some j).
Proof.
  split.
  - split; [reflexivity|]. split; [reflexivity|].
    exact (proj2 (proj1 (assist_requires_job (navigate "/apply-with-ai"))
                    eq_refl eq_refl)).
  - split; [reflexivity|].
    exact (proj2 (assist_requires_job
                    (applyWithAI (Notions.described "Ward nurse."))) eq_refl).
Defined.

End RouterFacts.

(** * Further properties of the listing screen *)

Section MoreStringFacts.

Import JsString Notions.

Lemma lowerChar_idem (c : ascii) : lowerChar (lowerChar c) = lowerChar c.
Proof. by destruct c as [[] [] [] [] [] [] [] []]. Qed.

Lemma isWhiteSpace_lowerChar (c : ascii) :
  isWhiteSpace (lowerChar c) = isWhiteSpace c.
Proof. by destruct c as [[] [] [] [] [] [] [] []]. Qed.

Lemma toLowerCase_idem (s : string) :
  toLowerCase (toLowerCase s) = toLowerCase s.
Proof.
  induction s as [|c s IH]; simpl; [done|]. by rewrite lowerChar_idem, IH.
Qed.

Lemma isEmpty_toLowerCase (s : string) : isEmpty (toLowerCase s) = isEmpty s.
Proof. by destruct s. Qed.

Lemma toLowerCase_trimStart (s : string) :
  toLowerCase (trimStart s) = trimStart (toLowerCase s).
Proof.
  induction s as [|c s IH]; simpl; [done|].
  rewrite isWhiteSpace_lowerChar. by destruct (isWhiteSpace c).
Qed.

Lemma toLowerCase_trimEnd (s : string) :
  toLowerCase (trimEnd s) = trimEnd (toLowerCase s).
Proof.
  induction s as [|c s IH]; simpl; [done|].
  rewrite isWhiteSpace_lowerChar, <- IH, isEmpty_toLowerCase.
  by destruct (isWhiteSpace c && isEmpty (trimEnd s)).
Qed.

Lemma toLowerCase_trim (s : string) :
  toLowerCase (trim s) = trim (toLowerCase s).
Proof. unfold trim. by rewrite toLowerCase_trimEnd, toLowerCase_trimStart. Qed.

Lemma trimStart_white (a s : string) :
  allWhiteSpace a = true -> trimStart (a +:+ s) = trimStart s.
Proof.
  induction a as [|c a IH]; [done|]. simpl allWhiteSpace.
  intros [Hc Ha]%andb_true_iff.
  change (String c a +:+ s) with (String c (a +:+ s)).
  simpl. rewrite Hc. by apply IH.
Qed.

Lemma trimEnd_all_white (b : string) : allWhiteSpace b = true -> trimEnd b = "".
Proof.
  induction b as [|c b IH]; [done|]. simpl.
  intros [Hc Hb]%andb_true_iff. by rewrite Hc, (IH Hb).
Qed.

Lemma trimStart_all_white (b : string) :
  allWhiteSpace b = true -> trimStart b = "".
Proof.
  induction b as [|c b IH]; [done|]. simpl.
  intros [Hc Hb]%andb_true_iff. by rewrite Hc, (IH Hb).
Qed.

Lemma trimEnd_white (s b : string) :
  allWhiteSpace b = true -> trimEnd (s +:+ b) = trimEnd s.
Proof.
  intros Hb. induction s as [|c s IH].
  - by apply trimEnd_all_white.
  - change (String c s +:+ b) with (String c (s +:+ b)).
    simpl. by rewrite IH.
Qed.

Lemma trim_white_r (s b : string) :
  allWhiteSpace b = true -> trim (s +:+ b) = trim s.
Proof.
  intros Hb. unfold trim. induction s as [|c s IH].
  - change ("" +:+ b) with b. by rewrite (trimStart_all_white b Hb).
  - change (String c s +:+ b) with (String c (s +:+ b)).
    cbn [trimStart]. destruct (isWhiteSpace c); [done|].
    change (String c (s +:+ b)) with (String c s +:+ b).
    by apply trimEnd_white.
Qed.

Lemma trim_padding (a s b : string) :
  allWhiteSpace a = true -> allWhiteSpace b = true ->
  trim (a +:+ s +:+ b) = trim s.
Proof.
  intros Ha Hb. unfold trim. rewrite (trimStart_white a _ Ha).
  by apply trim_white_r.
Qed.

Lemma IsSubstring_trans (a b c : string) :
  IsSubstring a b -> IsSubstring b c -> IsSubstring a c.
Proof.
  intros (p1 & s1 & ->) (p2 & s2 & ->).
  exists (p2 +:+ p1), (s1 +:+ s2). by rewrite !append_assoc.
Qed.

Lemma IsSubstring_empty (a : string) : IsSubstring a "" -> a = "".
Proof.
  intros (p & q & H). destruct p; [|discriminate H].
  destruct a; [done | discriminate H].
Qed.

End MoreStringFacts.

Lemma filter_sublist_impl {A} (f g : A -> bool) (l : list A) :
  (forall x, f x = true -> g x = true) ->
  sublist (List.filter f l) (List.filter g l).
Proof.
  intros Hfg. induction l as [|x l IH]; simpl; [constructor|].
  destruct (f x) eqn:Ef.
  - rewrite (Hfg x Ef). by constructor.
  - destruct (g x); [by constructor | done].
Qed.

Section MoreFilteredJobs.

Import JobsPage Listing Notions.

(** X1: the case of the query is immaterial: two queries that agree once
    lower-cased select the same jobs. *)
Theorem query_case_insensitive (jobs : list Job) (q q' loc : string) :
  toLowerCase q = toLowerCase q' ->
  filteredJobs jobs q loc = filteredJobs jobs q' loc.
Proof.
  intros H. unfold filteredJobs. cbv zeta.
  by rewrite !toLowerCase_trim, H.
Qed.

Lemma query_case_insensitive_witness :
  toLowerCase "NURSE" = toLowerCase "nurse"
  /\ filteredJobs [nurse; developer] "NURSE" All
     = filteredJobs [nurse; developer] "nurse" All.
Proof.
  split; [reflexivity|].
  exact (query_case_insensitive [nurse; developer] "NURSE" "nurse" All
           eq_refl).
Defined.

(** X2: whitespace typed before or after the query changes nothing. *)
Theorem query_padding_ignored (jobs : list Job) (a q b loc : string) :
  allWhiteSpace a = true -> allWhiteSpace b = true ->
  filteredJobs jobs (a +:+ q +:+ b) loc = filteredJobs jobs q loc.
Proof.
  intros Ha Hb. unfold filteredJobs. cbv zeta.
  by rewrite (trim_padding a q b Ha Hb).
Qed.

Lemma query_padding_ignored_witness :
  allWhiteSpace "  " = true /\ allWhiteSpace " " = true
  /\ filteredJobs [nurse; developer] ("  " +:+ "acme" +:+ " ") All
     = filteredJobs [nurse; developer] "acme" All.
Proof.
  split; [reflexivity|]. split; [reflexivity|].
  exact (query_padding_ignored [nurse; developer] "  " "acme" " " All
           eq_refl eq_refl).
Defined.

Lemma matchQuery_refined (query query' : string) (j : Job) :
  IsSubstring query query' ->
  matchQuery query' j = true -> matchQuery query j = true.
Proof.
  intros Hsub. unfold matchQuery. cbv zeta.
  rewrite !orb_true_iff, !negb_true_iff, !truthy_false, !includes_spec.
  intros [[[-> | H] | H] | H].
  - left. left. left. by apply IsSubstring_empty.
  - left. left. right. by apply (IsSubstring_trans _ query').
  - left. right. by apply (IsSubstring_trans _ query').
  - right. by apply (IsSubstring_trans _ query').
Qed.

(** X3: refining the query never adds a job: when the (trimmed,
    lower-cased) query occurs in a second one, the jobs the second
    selects are among those of the first, in the same order. *)
Theorem refined_query_narrows (jobs : list Job) (q q' loc : string) :
  IsSubstring (toLowerCase (trim q)) (toLowerCase (trim q')) ->
  sublist (filteredJobs jobs q' loc) (filteredJobs jobs q loc).
Proof.
  intros Hsub. unfold filteredJobs. cbv zeta.
  apply filter_sublist_impl. intros j.
  rewrite !andb_true_iff. intros [Hq Hl]. split; [|done].
  by apply (matchQuery_refined _ _ j Hsub).
Qed.

Lemma refined_query_narrows_witness :
  IsSubstring (toLowerCase (trim "nur")) (toLowerCase (trim "Nurse"))
  /\ sublist (filteredJobs [nurse; developer] "Nurse" All)
       (filteredJobs [nurse; developer] "nur" All).
Proof.
  assert (IsSubstring (toLowerCase (trim "nur"))
            (toLowerCase (trim "Nurse"))) as H.
  { exists "", "se". reflexivity. }
  split; [exact H|].
  exact (refined_query_narrows [nurse; developer] "nur" "Nurse" All H).
Defined.

(** X4: filtering what has been filtered, by the same query and
    location, changes nothing. *)
Theorem filteredJobs_idempotent (jobs : list Job) (q loc : string) :
  filteredJobs (filteredJobs jobs q loc) q loc = filteredJobs jobs q loc.
Proof.
  unfold filteredJobs. cbv zeta. rewrite filter_andb.
  apply filter_ext. intros j. by rewrite andb_diag.
Qed.

(** X5: every location the selector offers, other than the sentinel,
    lists at least one job when selected with no query: a job of the
    array located there. *)
Theorem offered_location_lists_a_job
    (localeCompare : string -> string -> Z) (jobs : list Job) (L : string) :
  L ∈ locations localeCompare jobs -> L <> All ->
  exists j, j ∈ filteredJobs jobs "" L /\ job_location j = Some L.
Proof.
  unfold locations. cbv zeta. rewrite elem_of_cons.
  intros [-> | HL] Hne; [done|].
  apply locations_tail_elem_of in HL as [Hnonempty (j & Hj & Hloc)].
  exists j. split; [|done].
  unfold filteredJobs. apply list_elem_of_In, filter_In.
  split; [by apply list_elem_of_In|].
  unfold matchLoc. cbv zeta. rewrite Hloc.
  assert (orEmpty (Some L) = L) as -> by (by destruct L).
  rewrite (bool_decide_eq_true_2 (toLowerCase L = toLowerCase L)); [|done].
  by rewrite orb_true_r.
Qed.

Lemma offered_location_lists_a_job_witness :
  "London" ∈ locations codeUnitCompare [nurse; developer]
  /\ "London" <> All
  /\ exists j, j ∈ filteredJobs [nurse; developer] "" "London"
       /\ job_location j = Some "London".
Proof.
  assert ("London" ∈ locations codeUnitCompare [nurse; developer]) as H.
  { apply list_elem_of_In. right. right. left. reflexivity. }
  assert ("London" <> All) as Hne by discriminate.
  split; [exact H|]. split; [exact Hne|].
  exact (offered_location_lists_a_job codeUnitCompare [nurse; developer]
           "London" H Hne).
Defined.

(** X6: a job without a location (absent or empty) is listed under no
    location the selector offers other than the sentinel, whatever the
    query. *)
Theorem unlocated_job_hidden
    (localeCompare : string -> string -> Z) (jobs : list Job)
    (q L : string) (j : Job) :
  orEmpty (job_location j) = "" ->
  L ∈ locations localeCompare jobs -> L <> All ->
  j ∉ filteredJobs jobs q L.
Proof.
  intros Hj. unfold locations. cbv zeta. rewrite elem_of_cons.
  intros [-> | HL] Hne; [done|].
  apply locations_tail_elem_of in HL as [Hnonempty _].
  unfold filteredJobs. rewrite list_elem_of_In, filter_In.
  intros [_ H]. apply andb_true_iff in H as [_ H].
  unfold matchLoc in H. cbv zeta in H. rewrite Hj in H.
  apply orb_true_iff in H as [H | H]; apply bool_decide_eq_true in H.
  - done.
  - simpl in H. symmetry in H. by apply (proj1 (toLowerCase_empty L)) in H.
Qed.

Lemma unlocated_job_hidden_witness :
  orEmpty (job_location (posting "Cook" "Cafe" None)) = ""
  /\ "Berlin" ∈ locations codeUnitCompare
                  [nurse; posting "Cook" "Cafe" None; developer]
  /\ "Berlin" <> All
  /\ posting "Cook" "Cafe" None
       ∉ filteredJobs [nurse; posting "Cook" "Cafe" None; developer]
           "cook" "Berlin".
Proof.
  assert ("Berlin" ∈ locations codeUnitCompare
                       [nurse; posting "Cook" "Cafe" None; developer]) as H.
  { apply list_elem_of_In. right. left. reflexivity. }
  assert ("Berlin" <> All) as Hne by discriminate.
  split; [reflexivity|]. split; [exact H|]. split; [exact Hne|].
  exact (unlocated_job_hidden codeUnitCompare
           [nurse; posting "Cook" "Cafe" None; developer] "cook" "Berlin"
           (posting "Cook" "Cafe" None) eq_refl H Hne).
Defined.

End MoreFilteredJobs.

(** * The job card *)

Section JobCardFacts.

Import JobCard.

Lemma length_append (a b : string) :
  String.length (a +:+ b) = (String.length a + String.length b)%nat.
Proof.
  induction a as [|c a IH]; [done|].
  change (String c a +:+ b) with (String c (a +:+ b)). simpl. by rewrite IH.
Qed.

Lemma length_sliceTo (n : nat) (s : string) :
  String.length (sliceTo n s) = (n `min` String.length s)%nat.
Proof.
  revert s. induction n as [|n IH]; intros [|c s]; simpl; try done.
  by rewrite IH.
Qed.

Lemma sliceTo_all (n : nat) (s : string) :
  (String.length s <= n)%nat <-> sliceTo n s = s.
Proof.
  revert s. induction n as [|n IH]; intros [|c s]; simpl.
  - split; [done | lia].
  - split; [lia | discriminate].
  - split; [done | lia].
  - split.
    + intros H. f_equal. apply IH. lia.
    + intros [= H]. apply IH in H. lia.
Qed.

Lemma sliceTo_prefix (n : nat) (s : string) :
  exists rest, s = sliceTo n s +:+ rest.
Proof.
  revert s. induction n as [|n IH]; intros s.
  - by exists s.
  - destruct s as [|c s]; [by exists ""|].
    destruct (IH s) as [rest Hrest]. exists rest. simpl.
    change (String c (sliceTo n s) +:+ rest)
      with (String c (sliceTo n s +:+ rest)).
    by rewrite <- Hrest.
Qed.

Lemma isLong_spec (j : Job) :
  isLong j = true <-> (100 < String.length (fullText j))%nat.
Proof. unfold isLong. apply Nat.ltb_lt. Qed.

(** X7: the collapsed text of a card is the first 100 characters of the
    description (all of it when it is shorter, none when there is no
    description), followed by an ellipsis exactly when the description is
    longer; so it never exceeds 103 characters. *)
Theorem shortText_shape (j : Job) :
  exists tail,
    shortText j = sliceTo 100 (fullText j) +:+ tail
    /\ (tail = "" \/ tail = "...")
    /\ (tail = "..." <-> (100 < String.length (fullText j))%nat)
    /\ (String.length (shortText j) <= 103)%nat.
Proof.
  unfold shortText. destruct (isLong j) eqn:E.
  - apply isLong_spec in E. exists "...". split; [done|]. split; [by right|].
    split; [done|]. rewrite length_append, length_sliceTo.
    change (String.length "...") with 3%nat. lia.
  - assert (~ (100 < String.length (fullText j))%nat) as Hn.
    { rewrite <- isLong_spec. congruence. }
    assert (sliceTo 100 (fullText j) = fullText j) as Hs.
    { apply sliceTo_all. lia. }
    exists "". rewrite Hs, append_nil_r. split; [done|]. split; [by left|].
    split; [split; [discriminate | done] | lia].
Qed.

(** X8: the toggle is offered exactly when the first 100 characters are
    not the whole description; where it is not offered the card shows
    the whole description, expanded or not. *)
Theorem toggle_offered (j : Job) :
  (toggleShown j = true <-> sliceTo 100 (fullText j) <> fullText j)
  /\ (toggleShown j = false ->
        forall expanded, shownText expanded j = fullText j).
Proof.
  unfold toggleShown. split.
  - rewrite isLong_spec, <- sliceTo_all. lia.
  - intros E [|]; unfold shownText, shortText; by rewrite ?E.
Qed.

Lemma toggle_offered_witness :
  toggleShown (Notions.described "Ward nurse, nights.") = false
  /\ forall expanded,
       shownText expanded (Notions.described "Ward nurse, nights.")
       = "Ward nurse, nights.".
Proof.
  split; [reflexivity|].
  exact (proj2 (toggle_offered (Notions.described "Ward nurse, nights."))
           eq_refl).
Defined.

End JobCardFacts.

(** * The burger menu *)

Section MenuFacts.

Import Menu.

(** X9: resizing the window never opens or closes the menu: after any
    sequence of resizes the menu is as it was, and the layout is the one
    of the last width; so the scroll lock of an open menu comes back
    with the phone width. *)
Theorem resizes_keep_menu (ws : list Z) (m : MenuState) :
  isMenuOpen (resizes ws m) = isMenuOpen m
  /\ isMobile (resizes ws m)
     = match last ws with
       | Some w => w <=? 768
       | None => isMobile m
       end
  /\ scrollLocked (resizes ws m)
     = isMenuOpen m && match last ws with
                       | Some w => w <=? 768
                       | None => isMobile m
                       end.
Proof.
  assert (isMenuOpen (resizes ws m) = isMenuOpen m
          /\ isMobile (resizes ws m)
             = match last ws with
               | Some w => w <=? 768
               | None => isMobile m
               end) as [H1 H2].
  { revert m. induction ws as [|w ws IH]; intros m; [done|].
    change (resizes (w :: ws) m) with (resizes ws (checkScreenSize w m)).
    destruct (IH (checkScreenSize w m)) as [IH1 IH2].
    split; [by rewrite IH1|]. rewrite IH2.
    destruct ws as [|w' ws]; [reflexivity|]. rewrite last_cons_cons.
    destruct (last (w' :: ws)) eqn:E; [reflexivity|].
    by apply last_None in E. }
  split; [done|]. split; [done|]. unfold scrollLocked. by rewrite H1, H2.
Qed.

End MenuFacts.

(** * Further properties of the assist screen *)

Section MoreAssistFacts.

Import Assist Workflow Controls Notions.

Variable net : Network.
Variable job : option Job.
Variable s : State.

Ltac run_actions :=
  unfold SameInputs, generateDisabled, rewriteDisabled, modifyDisabled,
    final, events, run,
    generateLetter, rewriteAsCv, modifyLetter, validateCv,
    tryFinally, tryCatch, bind, fetch, throwUnlessOk, json, getProp,
    evaluate,
    consoleError, emit, setLoading, setError, setLetter, setRewrittenCv,
    setCvReview, modify, ret, throw;
  simpl.

Ltac case_answers :=
  repeat match goal with
    | |- context [match net ?r with _ => _ end] =>
        destruct (net r) as [|[|] [?|]]; simpl
    | |- context [if ?b then _ else _] => destruct b; simpl
    | |- context [match incompleteMessage ?r with _ => _ end] =>
        destruct (incompleteMessage r); simpl
    end.

(** X10: no action lets an exception escape, whatever the services
    answer: each of the four ends normally. *)
Theorem no_exception_escapes :
  (exists v, fst (run (validateCv net job) s) = Returned v)
  /\ fst (run (generateLetter net job) s) = Returned tt
  /\ fst (run (rewriteAsCv net job) s) = Returned tt
  /\ fst (run (modifyLetter net job) s) = Returned tt.
Proof.
  repeat split; run_actions; case_answers; eauto.
Qed.

(** X11: the actions never write what the user has entered: the resume
    text, the letter style and the edit action are after each action
    what they were before. *)
Theorem inputs_untouched :
  SameInputs s (final (validateCv net job) s)
  /\ SameInputs s (final (generateLetter net job) s)
  /\ SameInputs s (final (rewriteAsCv net job) s)
  /\ SameInputs s (final (modifyLetter net job) s).
Proof.
  repeat split; run_actions; case_answers; reflexivity.
Qed.

(** X12: each action keeps to its own panel: rewriting the resume leaves
    the letter and the stored review alone, editing the letter leaves
    the rewritten resume and the review alone, generating a letter
    leaves the rewritten resume alone, and validation leaves the letter,
    the rewritten resume and the loading flag alone. *)
Theorem panels_untouched :
  (letter (final (rewriteAsCv net job) s) = letter s
   /\ cvReview (final (rewriteAsCv net job) s) = cvReview s)
  /\ (rewrittenCv (final (modifyLetter net job) s) = rewrittenCv s
      /\ cvReview (final (modifyLetter net job) s) = cvReview s)
  /\ rewrittenCv (final (generateLetter net job) s) = rewrittenCv s
  /\ (letter (final (validateCv net job) s) = letter s
      /\ rewrittenCv (final (validateCv net job) s) = rewrittenCv s).
Proof.
  repeat split; run_actions; case_answers; reflexivity.
Qed.

(** X13: no action repeats a request: generating a letter asks for the
    validation and then at most once for the letter, the three other
    actions ask exactly once, whatever the answers. *)
Theorem requests_issued :
  (requests (events (generateLetter net job) s) = [validateRequest job s]
   \/ requests (events (generateLetter net job) s)
      = [validateRequest job s; coverLetterRequest job s])
  /\ requests (events (validateCv net job) s) = [validateRequest job s]
  /\ requests (events (rewriteAsCv net job) s) = [rewriteRequest job s]
  /\ requests (events (modifyLetter net job) s) = [editRequest job s].
Proof.
  repeat split; run_actions; case_answers; auto.
Qed.

(** X14: an edit that fails, for whatever reason (network, status, a body
    that is not JSON or is null), keeps the letter on display and reports
    the fixed message. *)
Theorem modifyLetter_failure_keeps_letter :
  Unreadable (net (editRequest job s)) ->
  letter (final (modifyLetter net job) s) = letter s
  /\ error (final (modifyLetter net job) s) = "Failed to modify letter."
  /\ loading (final (modifyLetter net job) s) = false.
Proof.
  intros [H | [[p H] | [H | (d & H & Hd)]]]; run_actions; rewrite H; simpl;
    rewrite ?Hd; done.
Qed.

(** X15: an edit that succeeds replaces the letter by the [letter] field
    of the answer ([undefined] when the answer has none) and clears the
    error. *)
Theorem modifyLetter_success (data : JsValue) :
  Readable (net (editRequest job s)) data ->
  letter (final (modifyLetter net job) s) = getField data "letter"
  /\ error (final (modifyLetter net job) s) = ""
  /\ loading (final (modifyLetter net job) s) = false.
Proof.
  intros [H Hd]. run_actions. rewrite H. simpl. by rewrite Hd.
Qed.

(** X16: a rewrite that fails, for whatever reason, leaves the rewritten
    resume empty, a previous one being cleared, and reports the fixed
    message. *)
Theorem rewriteAsCv_failure_clears :
  Unreadable (net (rewriteRequest job s)) ->
  rewrittenCv (final (rewriteAsCv net job) s) = JStr ""
  /\ error (final (rewriteAsCv net job) s) = "Failed to rewrite CV."
  /\ loading (final (rewriteAsCv net job) s) = false.
Proof.
  intros [H | [[p H] | [H | (d & H & Hd)]]]; run_actions; rewrite H; simpl;
    rewrite ?Hd; done.
Qed.

(** X17: a rewrite that succeeds shows the [cv] field of the answer and
    clears the error. *)
Theorem rewriteAsCv_success (data : JsValue) :
  Readable (net (rewriteRequest job s)) data ->
  rewrittenCv (final (rewriteAsCv net job) s) = getField data "cv"
  /\ error (final (rewriteAsCv net job) s) = ""
  /\ loading (final (rewriteAsCv net job) s) = false.
Proof.
  intros [H Hd]. run_actions. rewrite H. simpl. by rewrite Hd.
Qed.

Lemma sufficient_not_refused (review : JsValue) :
  Sufficient net job s review ->
  isNullish review = false
  /\ strictEqFalse (getField review "enough") = false.
Proof.
  intros (_ & Ht & He). split; [by destruct review|].
  destruct (strictEqFalse _) eqn:E; [|done].
  by apply strictEqFalse_spec in E.
Qed.

(** X18: after a sufficient review, any readable answer of the
    generation service ends the flow without an error: the letter is the
    [letter] field of the answer, [undefined] when the answer has none,
    and the review is kept in the state. *)
Theorem generateLetter_readable (review data : JsValue) :
  Sufficient net job s review ->
  Readable (net (coverLetterRequest job s)) data ->
  letter (final (generateLetter net job) s) = getField data "letter"
  /\ error (final (generateLetter net job) s) = ""
  /\ cvReview (final (generateLetter net job) s) = review
  /\ loading (final (generateLetter net job) s) = false.
Proof.
  intros Hs [Hg Hd]. destruct (sufficient_not_refused review Hs) as [Hn He].
  destruct Hs as (Hv & Ht & _).
  run_actions. rewrite Hv. simpl. rewrite Ht, Hn. simpl.
  rewrite He, Hg. simpl. by rewrite Hd.
Qed.

(** X19: a validation answer that is falsy (null, false, 0 or the empty
    string) stops the flow in silence: no generation request, no error
    message, an empty letter, the flag down. *)
Theorem generateLetter_falsy_review (review : JsValue) :
  net (validateRequest job s) = Responded true (Some review) ->
  truthy review = false ->
  requests (events (generateLetter net job) s) = [validateRequest job s]
  /\ error (final (generateLetter net job) s) = ""
  /\ letter (final (generateLetter net job) s) = JStr ""
  /\ loading (final (generateLetter net job) s) = false.
Proof.
  intros Hv Ht. run_actions. rewrite Hv. simpl. by rewrite Ht.
Qed.

(** X20: validation on its own: a readable-as-JSON ok answer is stored
    as the review and returned, the error untouched; any other answer
    returns null, leaves the stored review as it was and reports the
    fixed message. *)
Theorem validateCv_outcome :
  (forall data,
     net (validateRequest job s) = Responded true (Some data) ->
     fst (run (validateCv net job) s) = Returned data
     /\ cvReview (final (validateCv net job) s) = data
     /\ error (final (validateCv net job) s) = error s)
  /\ (Unusable (net (validateRequest job s)) ->
      fst (run (validateCv net job) s) = Returned JNull
      /\ cvReview (final (validateCv net job) s) = cvReview s
      /\ error (final (validateCv net job) s) = "CV validation failed.").
Proof.
  split.
  - intros data H. run_actions. by rewrite H.
  - intros [[H | [p H]] | H]; run_actions; by rewrite H.
Qed.

(** X21: the generate-letter flow ends with one of four errors: none,
    the validation message, the generation message, or the
    incomplete-resume message of the review received, when its score and
    advice convert to text. *)
Theorem generateLetter_errors :
  error (final (generateLetter net job) s) = ""
  \/ error (final (generateLetter net job) s) = "CV validation failed."
  \/ error (final (generateLetter net job) s) = "Failed to generate letter."
  \/ exists review score advice,
       net (validateRequest job s) = Responded true (Some review)
       /\ getField review "enough" = JBool false
       /\ toString (getField review "score") = Some score
       /\ adviceText review = Some advice
       /\ error (final (generateLetter net job) s)
          = "Your CV seems incomplete for this JD (score "
              +:+ score +:+ "). " +:+ advice.
Proof.
  run_actions. destruct (net (validateRequest job s)) as [|[|] [review|]];
    simpl; auto.
  destruct (truthy review); simpl; auto.
  destruct (isNullish review); simpl; auto.
  destruct (strictEqFalse (getField review "enough")) eqn:He; simpl.
  - apply strictEqFalse_spec in He. unfold incompleteMessage.
    destruct (toString (getField review "score")) as [score|] eqn:Hs;
      simpl; auto.
    destruct (adviceText review) as [advice|] eqn:Ha; simpl; auto.
    right. right. right. by exists review, score, advice.
  - case_answers; auto.
Qed.

(** X22: while a request of generate letter, rewrite resume or edit
    letter is pending, the three buttons are disabled: no second action
    can be started from the screen. *)
Theorem pending_disables_controls :
  let disabled p :=
    generateDisabled job p = true /\ rewriteDisabled job p = true
    /\ modifyDisabled p = true in
  Forall disabled (pendingStates (events (generateLetter net job) s))
  /\ Forall disabled (pendingStates (events (rewriteAsCv net job) s))
  /\ Forall disabled (pendingStates (events (modifyLetter net job) s)).
Proof.
  cbv zeta.
  repeat split; run_actions; case_answers;
    repeat constructor; simpl; by rewrite ?orb_true_r.
Qed.

(** X23: when the generate button is enabled, a job with a non-empty
    description is selected, a resume is entered, nothing is loading, and
    the validation and the generation request describe the job alike. *)
Theorem enabled_generate_requests :
  generateDisabled job s = false ->
  (exists j d, job = Some j /\ description j = Some d /\ d <> "")
  /\ cv s <> ""
  /\ loading s = false
  /\ getField (body (validateRequest job s)) "job"
     = getField (body (coverLetterRequest job s)) "job".
Proof.
  unfold generateDisabled.
  intros [[Hcv Hd]%orb_false_iff Hl]%orb_false_iff.
  apply negb_false_iff in Hcv.
  destruct job as [j|]; [|discriminate Hd]. simpl in Hd.
  destruct (description j) as [d|] eqn:Ed; [|discriminate Hd].
  simpl in Hd. apply negb_false_iff in Hd.
  assert (d <> "") as Hne by (by intros ->).
  split; [by exists j, d|]. split; [by intros E; rewrite E in Hcv|].
  split; [done|].
  unfold validateRequest, coverLetterRequest, jobPayload, jobField. simpl.
  rewrite Ed. simpl. unfold orEmpty. by rewrite Hd.
Qed.

End MoreAssistFacts.

Section MoreAssistExamples.

Import Assist Workflow Controls Notions.

Lemma modifyLetter_failure_keeps_letter_witness :
  Unreadable (offline (editRequest someJob session))
  /\ letter (final (modifyLetter offline someJob) session)
     = JStr "Dear Sir or Madam"
  /\ error (final (modifyLetter offline someJob) session)
     = "Failed to modify letter.".
Proof.
  assert (Unreadable (offline (editRequest someJob session))) as H
    by (left; reflexivity).
  split; [exact H|].
  destruct (modifyLetter_failure_keeps_letter offline someJob session H)
    as (H1 & H2 & _).
  split; [exact H1 | exact H2].
Defined.

Lemma modifyLetter_success_witness :
  Readable (goodService (editRequest someJob session)) letterX
  /\ letter (final (modifyLetter goodService someJob) session) = JStr "X".
Proof.
  assert (Readable (goodService (editRequest someJob session)) letterX) as H
    by (split; reflexivity).
  split; [exact H|].
  exact (proj1 (modifyLetter_success goodService someJob session letterX H)).
Defined.

Lemma rewriteAsCv_failure_clears_witness :
  Unreadable (offline (rewriteRequest someJob session))
  /\ rewrittenCv (final (rewriteAsCv offline someJob) session) = JStr ""
  /\ error (final (rewriteAsCv offline someJob) session)
     = "Failed to rewrite CV.".
Proof.
  assert (Unreadable (offline (rewriteRequest someJob session))) as H
    by (left; reflexivity).
  split; [exact H|].
  destruct (rewriteAsCv_failure_clears offline someJob session H)
    as (H1 & H2 & _).
  split; [exact H1 | exact H2].
Defined.

Lemma rewriteAsCv_success_witness :
  Readable (rewriteService (rewriteRequest someJob session))
    (JObj [("cv", JStr "Profile: ward nurse.")])
  /\ rewrittenCv (final (rewriteAsCv rewriteService someJob) session)
     = JStr "Profile: ward nurse.".
Proof.
  assert (Readable (rewriteService (rewriteRequest someJob session))
            (JObj [("cv", JStr "Profile: ward nurse.")])) as H
    by (split; reflexivity).
  split; [exact H|].
  exact (proj1 (rewriteAsCv_success rewriteService someJob session _ H)).
Defined.

(** An answer without a [letter] field: the letter ends [undefined]. *)
Lemma generateLetter_readable_witness :
  Sufficient rewriteService someJob session goodReview
  /\ Readable (rewriteService (coverLetterRequest someJob session))
       (JObj [("cv", JStr "Profile: ward nurse.")])
  /\ letter (final (generateLetter rewriteService someJob) session)
     = JUndefined
  /\ error (final (generateLetter rewriteService someJob) session) = "".
Proof.
  assert (Sufficient rewriteService someJob session goodReview) as Hs.
  { split; [reflexivity|]. split; [reflexivity | discriminate]. }
  assert (Readable (rewriteService (coverLetterRequest someJob session))
            (JObj [("cv", JStr "Profile: ward nurse.")])) as Hr
    by (split; reflexivity).
  split; [exact Hs|]. split; [exact Hr|].
  destruct (generateLetter_readable rewriteService someJob session
              goodReview _ Hs Hr) as (H1 & H2 & _).
  split; [exact H1 | exact H2].
Defined.

Lemma generateLetter_falsy_review_witness :
  silentService (validateRequest someJob session)
    = Responded true (Some JNull)
  /\ truthy JNull = false
  /\ requests (events (generateLetter silentService someJob) session)
     = [validateRequest someJob session]
  /\ error (final (generateLetter silentService someJob) session) = "".
Proof.
  split; [reflexivity|]. split; [reflexivity|].
  destruct (generateLetter_falsy_review silentService someJob session JNull
              eq_refl eq_refl) as (H1 & H2 & _).
  split; [exact H1 | exact H2].
Defined.

Lemma validateCv_outcome_witness :
  (goodService (validateRequest someJob session)
     = Responded true (Some goodReview)
   /\ cvReview (final (validateCv goodService someJob) session) = goodReview)
  /\ (Unusable (offline (validateRequest someJob session))
      /\ fst (run (validateCv offline someJob) session) = Returned JNull).
Proof.
  assert (Unusable (offline (validateRequest someJob session))) as H
    by (left; left; reflexivity).
  split.
  - split; [reflexivity|].
    exact (proj1 (proj2 (proj1 (validateCv_outcome goodService someJob
                                  session) goodReview eq_refl))).
  - split; [exact H|].
    exact (proj1 (proj2 (validateCv_outcome offline someJob session) H)).
Defined.

Lemma enabled_generate_requests_witness :
  generateDisabled ready session = false
  /\ getField (body (validateRequest ready session)) "job"
     = getField (body (coverLetterRequest ready session)) "job".
Proof.
  split; [reflexivity|].
  exact (proj2 (proj2 (proj2 (enabled_generate_requests ready session
                                eq_refl)))).
Defined.

(** X24: the description preview of the job card shows at most the
    first 700 characters, a prefix of the description; it throws exactly
    when the job has no description, which the generate button's guard
    excludes. *)
Theorem descriptionPreview_shape (j : Job) (s : State) :
  (descriptionPreview j = None <-> description j = None)
  /\ (forall t, descriptionPreview j = Some t ->
        (String.length t <= 700)%nat
        /\ exists rest, description j = Some (t +:+ rest))
  /\ (generateDisabled (Some j) s = false ->
        exists t, descriptionPreview j = Some t).
Proof.
  unfold descriptionPreview, generateDisabled, jobField.
  destruct (description j) as [d|].
  - split; [split; discriminate|]. split.
    + intros t Ht.
      assert (t = JobCard.sliceTo 700 d) as -> by congruence. split.
      * rewrite length_sliceTo. lia.
      * destruct (sliceTo_prefix 700 d) as [rest H].
        exists rest. by rewrite <- H.
    + intros _. by eexists.
  - split; [done|]. split; [discriminate|].
    simpl. rewrite orb_true_r. discriminate.
Qed.

Lemma descriptionPreview_shape_witness :
  descriptionPreview (described "Ward nurse, nights.")
    = Some "Ward nurse, nights."
  /\ (String.length "Ward nurse, nights." <= 700)%nat
  /\ generateDisabled ready session = false
  /\ exists t, descriptionPreview (described "Ward nurse, nights.") = Some t.
Proof.
  split; [reflexivity|].
  destruct (descriptionPreview_shape (described "Ward nurse, nights.")
              session) as (_ & H2 & H3).
  split; [exact (proj1 (H2 _ eq_refl))|].
  split; [reflexivity|]. exact (H3 eq_refl).
Defined.

End MoreAssistExamples.

Section MoreRouterFacts.

Import Router.

(** X25: entering a location settles at once: entering where one has
    arrived changes nothing.  The navigation of a job card stays at the
    assist route with exactly the job of the card selected; the assist
    screen is mounted there when the job has a description, and for a
    job without one rendering throws and nothing is mounted. *)
Theorem enter_settles (l : Location) (j : Job) :
  enter (enter l) = enter l
  /\ enter (applyWithAI j) = applyWithAI j
  /\ selectedJob (enter (applyWithAI j)) = Some j
  /\ Mounting.shown (applyWithAI j)
     = match description j with
       | Some _ => Mounting.Mounted ApplyWithAIScreen
       | None => Mounting.Crashed
       end.
Proof.
  split; [|split; [done|split; [done|]]].
  - unfold enter, redirectEffect.
    destruct (screenOf l) eqn:Hs; rewrite ?Hs; try done.
    destruct (selectedJob l) eqn:Hj; [by rewrite Hs, Hj | done].
  - unfold Mounting.shown, Mounting.renderThrows, Controls.descriptionPreview.
    change (screenOf (applyWithAI j)) with ApplyWithAIScreen.
    change (selectedJob (applyWithAI j)) with (Some j).
    destruct (description j) as [d|] eqn:E; rewrite ?E.
    + rewrite bool_decide_eq_false_2; [|done].
      unfold enter, redirectEffect.
      change (screenOf (applyWithAI j)) with ApplyWithAIScreen.
      by change (selectedJob (applyWithAI j)) with (Some j).
    + by rewrite bool_decide_eq_true_2.
Qed.

(** The routes match whatever the case of the letters and the trailing
    slashes. *)
Example route_spellings :
  route "/" = JobsPageScreen
  /\ route "/apply-with-ai" = ApplyWithAIScreen
  /\ route "/Apply-With-AI/" = ApplyWithAIScreen
  /\ route "/apply" = NoScreen.
Proof. repeat split; reflexivity. Qed.

End MoreRouterFacts.
